(** * Shallow embedding of the waifu2x conversion CLI and of nunif's model base

    Sources embedded:
    - src/nunif/models/model.py           : Model, I2IBaseModel
    - src/waifu2x/training/downscaling_test.py : modcrop, wand_scale,
                                            downscaling_test
    - src/waifu2x/cli.py                  : convert_files, convert_file,
                                            load_files, main, and the
                                            [--method] alias of [__main__] *)

From Stdlib Require Import ZArith Lia Ascii.
From stdpp Require Import base gmap list strings.

Open Scope Z_scope.

(** Python values that appear as dictionary values (constructor kwargs,
    image metadata). *)
Inductive PyVal :=
| PInt (z : Z)
| PBool (b : bool)
| PStr (s : string)
| PNone
| PObj (id : nat).

(** A Python [dict] keyed by strings. *)
Abbreviation pydict := (gmap string PyVal).

(** Python exceptions raised by the modelled code. *)
Inductive Exc :=
| ValueError (msg : string)
| IndexError
| KeyError (key : string)
| TypeError
| CodecError (msg : string)   (* raised by the image codec *)
| OSError (msg : string)      (* raised by the file system *)
| CsvError (msg : string).    (* [_csv.Error] *)

(** A call that returns a value or raises. *)
Inductive result (A : Type) :=
| Ok (a : A)
| Err (e : Exc).
Arguments Ok {A} a.
Arguments Err {A} e.

(* ------------------------------------------------------------------ *)
(** ** src/nunif/models/model.py *)

Module NunifModel.

(** [class Model(nn.Module)]: the fields set by [Model.__init__]. *)
Record Model := mkModel {
  kwargs : pydict;
  updated_at : option Z   (* [None] or a timestamp *)
}.

(** One iteration of the loop of [register_kwargs]:
    [if name not in {"self"}: self.kwargs[name] = value]. *)
Definition register_one (m : Model) (item : string * PyVal) : Model :=
  let '(name, value) := item in
  if bool_decide (name ∈ ["self"]) then m
  else mkModel (<[name := value]> (kwargs m)) (updated_at m).

(** [def register_kwargs(self, kwargs)]: [for name, value in kwargs.items()]. *)
Definition register_kwargs (m : Model) (kw : pydict) : Model :=
  fold_left register_one (map_to_list kw) m.

(** [Model.__init__(self, kwargs)]:
    [self.kwargs = {}; self.updated_at = None; self.register_kwargs(kwargs)]. *)
Definition Model_init (kw : pydict) : Model :=
  register_kwargs (mkModel ∅ None) kw.

(** [def get_kwargs(self): return self.kwargs]. *)
Definition get_kwargs (m : Model) : pydict := kwargs m.

(** [class I2IBaseModel(Model)]. *)
Record I2IBaseModel := mkI2I {
  i2i_base : Model;
  i2i_scale : Z;
  i2i_offset : Z
}.

(** [I2IBaseModel.__init__(self, kwargs, scale, offset)]. *)
Definition I2IBaseModel_init (kw : pydict) (scale offset : Z) : I2IBaseModel :=
  mkI2I (Model_init kw) scale offset.

(** [I2IBaseModel.get_config]: [{"i2i_scale": ..., "i2i_offset": ...}]. *)
Definition I2I_get_config (m : I2IBaseModel) : pydict :=
  <["i2i_offset" := PInt (i2i_offset m)]> (<["i2i_scale" := PInt (i2i_scale m)]> ∅).







End NunifModel.

(* ------------------------------------------------------------------ *)
(** ** src/waifu2x/training/downscaling_test.py *)

Module Modcrop.
Section WithPixels.

Variable P : Type.
(** Fill colour of [TF.pad] (constant mode, default 0). *)
Variable fill : P.

(** A PIL image: [im.size = (w, h)] and its pixels. *)
Record Image := mkImage {
  im_w : Z;
  im_h : Z;
  im_px : Z -> Z -> P
}.

(** [TF.pad(im, (left, top, right, bottom))] in constant mode, i.e.
    [ImageOps.expand]: a canvas of size [(left + w + right, top + h + bottom)]
    filled with [fill], the image pasted at [(left, top)]; negative borders
    crop. *)
Definition pad (im : Image) (l t r b : Z) : Image :=
  mkImage (l + im_w im + r) (t + im_h im + b)
    (fun x y =>
       if (l <=? x) && (x <? l + im_w im) && (t <=? y) && (y <? t + im_h im)
       then im_px im (x - l) (y - t) else fill).

(** [def modcrop(im)]. Python's [%] with a positive divisor is [Z.modulo]. *)
Definition modcrop (im : Image) : Image :=
  let w := im_w im in
  let h := im_h im in
  let w_pad := - (w mod 4) in
  let h_pad := - (h mod 4) in
  if negb (w_pad =? 0) || negb (h_pad =? 0)
  then pad im 0 0 w_pad h_pad
  else im.

End WithPixels.

Arguments mkImage {P} im_w im_h im_px.
Arguments im_w {P} i.
Arguments im_h {P} i.
Arguments im_px {P} i _ _.
Arguments pad {P} fill im l t r b.
Arguments modcrop {P} fill im.
End Modcrop.

(* ------------------------------------------------------------------ *)
(** ** src/waifu2x/cli.py *)

Module PyStr.

(** Python's [str.lower] on ASCII text. *)
Definition lower_char (c : ascii) : ascii :=
  let n := Ascii.nat_of_ascii c in
  if (65 <=? n)%nat && (n <=? 90)%nat then Ascii.ascii_of_nat (n + 32) else c.

Definition lower (s : string) : string :=
  String.string_of_list_ascii (map lower_char (String.list_ascii_of_string s)).

(** [s[1:]] *)
Definition drop1 (s : string) : string :=
  match s with
  | String.EmptyString => String.EmptyString
  | String.String _ s' => s'
  end.

(** [p.rfind(c)]: index of the last occurrence of [c], [-1] when absent. *)
Fixpoint rfind_from (c : ascii) (l : list ascii) (i : nat) (acc : Z) : Z :=
  match l with
  | [] => acc
  | x :: l' => rfind_from c l' (S i) (if Ascii.eqb x c then Z.of_nat i else acc)
  end.

Definition rfind (c : ascii) (l : list ascii) : Z := rfind_from c l 0 (-1).

(** [posixpath.splitext] ([genericpath._splitext] with [sep = "/"],
    no [altsep], [extsep = "."]): the [while] loop skipping leading dots
    returns the split as soon as a non-dot character precedes [dotIndex]. *)
Definition splitext (p : string) : string * string :=
  let l := String.list_ascii_of_string p in
  let sepIndex := rfind "/"%char l in
  let dotIndex := rfind "."%char l in
  if sepIndex <? dotIndex then
    let between := skipn (Z.to_nat (sepIndex + 1)) (firstn (Z.to_nat dotIndex) l) in
    if existsb (fun c => negb (Ascii.eqb c "."%char)) between
    then (String.string_of_list_ascii (firstn (Z.to_nat dotIndex) l),
          String.string_of_list_ascii (skipn (Z.to_nat dotIndex) l))
    else (p, String.EmptyString)
  else (p, String.EmptyString).

(** [posixpath.basename]: [p[p.rfind("/") + 1:]]. *)
Definition basename (p : string) : string :=
  let l := String.list_ascii_of_string p in
  String.string_of_list_ascii (skipn (Z.to_nat (rfind "/"%char l + 1)) l).

(** [b.startswith("/")] *)
Definition starts_with_slash (b : string) : bool :=
  match b with
  | String.String c _ => Ascii.eqb c "/"%char
  | String.EmptyString => false
  end.

(** [a.endswith("/")] *)
Definition ends_with_slash (a : string) : bool :=
  match last (String.list_ascii_of_string a) with
  | Some c => Ascii.eqb c "/"%char
  | None => false
  end.

(** [posixpath.join(a, b)] with two arguments:
<<
    path = a
    if b.startswith(sep): path = b
    elif not path or path.endswith(sep): path += b
    else: path += sep + b
>> *)
Definition path_join (a b : string) : string :=
  if starts_with_slash b then b
  else if String.eqb a String.EmptyString || ends_with_slash a then (a ++ b)%string
  else (a ++ "/" ++ b)%string.

End PyStr.

(* ------------------------------------------------------------------ *)
(** ** src/waifu2x/training/downscaling_test.py: [wand_scale], [downscaling_test] *)

Module Downscaling.
Import Modcrop.
Section WithPixels.

Variable P : Type.
Variable fill : P.

(** [for filter_type in ("box", "sinc", "lanczos", "catrom", "triangle")] *)
Definition filter_types : list string := ["box"; "sinc"; "lanczos"; "catrom"; "triangle"].

(** [for blur in (1, 0.95, 1.05)], as the f-string [{blur}] formats them. *)
Definition blurs : list string := ["1"; "0.95"; "1.05"].

(** What one call of [wand_scale] saves: [IM.resize] applied to [src] with
    [size], [filter_type] and [blur], written by [im.save] to [path]. *)
Record Saved := mkSaved {
  sv_src : Image P;
  sv_size : Z * Z;
  sv_filter : string;
  sv_blur : string;
  sv_path : string
}.

(** [def wand_scale(im, filename, output_dir, filter_type, scale, blur)],
    [im] being [pil_io.to_tensor] of the image, of shape [(c, h, w)]. *)
Definition wand_scale (im : Image P) (filename output_dir filter_type : string)
    (scale : Z) (blur : string) : Saved :=
  let h := im_h im in
  let w := im_w im in
  let basename := fst (PyStr.splitext (PyStr.basename filename)) in
  mkSaved im (h / scale, w / scale) filter_type blur
    (PyStr.path_join output_dir
       (basename ++ "_" ++ filter_type ++ "_blur" ++ blur ++ ".png")%string).

(** [def downscaling_test(filename, output_dir, scale)], [im] being what
    [pil_io.load_image_simple(filename)] returned: the saves, in loop order. *)
Definition downscaling_test (im : Image P) (filename output_dir : string) (scale : Z)
    : list Saved :=
  let im := modcrop fill im in
  flat_map (fun filter_type =>
              map (fun blur => wand_scale im filename output_dir filter_type scale blur) blurs)
           filter_types.

End WithPixels.

Arguments mkSaved {P} sv_src sv_size sv_filter sv_blur sv_path.
Arguments sv_src {P} s.
Arguments sv_size {P} s.
Arguments sv_filter {P} s.
Arguments sv_blur {P} s.
Arguments sv_path {P} s.
Arguments wand_scale {P} im filename output_dir filter_type scale blur.
Arguments downscaling_test {P} fill im filename output_dir scale.
End Downscaling.

(** The parsed command line ([argparse] namespace) fields that
    [convert_file], [convert_files] and [main] read.  The remaining ones
    ([method], [noise_level], [tile_size], [batch_size], [tta]) are only
    forwarded to [ctx.convert]. *)
Record Args := mkArgs {
  args_input : string;
  args_output : string;
  args_format : string;
  args_depth : option Z;
  args_grayscale : bool
}.

(** The metadata edits shared by [convert_files] and [convert_file]:
<<
    if args.depth is not None:
        meta["depth"] = args.depth
    depth = meta["depth"] if "depth" in meta and meta["depth"] is not None else 8
    if args.grayscale:
        meta["grayscale"] = True
>>
    returns the edited [meta] and [depth]. *)
Definition update_meta (args : Args) (meta : pydict) : pydict * PyVal :=
  let meta := match args_depth args with
              | Some d => <["depth" := PInt d]> meta
              | None => meta
              end in
  let depth := match meta !! "depth" with
               | Some PNone | None => PInt 8
               | Some v => v
               end in
  let meta := if args_grayscale args then <["grayscale" := PBool true]> meta else meta in
  (meta, depth).

(** [{"png", "webp", "jpeg", "jpg"}] *)
Definition known_formats : list string := ["png"; "webp"; "jpeg"; "jpg"].

(** [_, ext = path.splitext(args.output); fmt = ext.lower()[1:]] *)
Definition output_fmt (args : Args) : string :=
  PyStr.drop1 (PyStr.lower (snd (PyStr.splitext (args_output args)))).

Module Cli.
Section Pipeline.

(** The decoded image type of the codec and the tensor type of torch. *)
Variable image tensor : Type.
(** [IL.load_image(path, color="rgb", keep_alpha=True)] *)
Variable load_image : string -> result (image * pydict).
(** [IL.to_tensor(im, return_alpha=True)] *)
Variable to_tensor : image -> tensor * option tensor.
(** [ctx.convert(rgb, alpha, ...)] with the arguments fixed by [args]. *)
Variable convert : tensor -> option tensor -> tensor * option tensor.
(** [IL.to_image(rgb, alpha, depth=depth)] *)
Variable to_image : tensor -> option tensor -> PyVal -> image.
(** [IL.save_image(im, filename=..., meta=..., format=...)] *)
Variable save_image : image -> string -> pydict -> string -> result unit.
(** [set_image_ext], [path.basename] and [path.join]. *)
Variable set_image_ext : string -> string -> string.
Variable basename : string -> string.
Variable path_join : string -> string -> string.
(** [os.makedirs(path, exist_ok=True)]: it raises, for example,
    [FileExistsError] when [path] exists and is not a directory, and
    [FileNotFoundError] for the empty path. *)
Variable makedirs : string -> result unit.

(** Observable effects of [convert_file], in order. *)
Inductive Event :=
| ELoad (p : string)
| EConvert
| ESave (filename : string) (meta : pydict) (fmt : string).

(** [def convert_file(ctx, args, enable_amp)]: its outcome and its effects. *)
Definition convert_file (args : Args) : result unit * list Event :=
  let fmt := output_fmt args in
  if negb (bool_decide (fmt ∈ known_formats)) then
    (Err (ValueError ("Unable to recognize image extension: " ++ fmt)), [])
  else
    match load_image (args_input args) with
    | Err e => (Err e, [ELoad (args_input args)])
    | Ok (im, meta) =>
        let '(rgb, alpha) := to_tensor im in
        let '(rgb, alpha) := convert rgb alpha in
        let '(meta, depth) := update_meta args meta in
        (save_image (to_image rgb alpha depth) (args_output args) meta fmt,
         [ELoad (args_input args); EConvert; ESave (args_output args) meta fmt])
    end.

(** An encode/write task submitted to the pool: the arguments of
    [pool.submit(IL.save_image, ...)] and the state of its future. *)
Record Task := mkTask {
  t_image : image;
  t_filename : string;
  t_meta : pydict;
  t_format : string;
  t_status : option (result unit)   (* [None] while the future is pending *)
}.

(** [meta["filename"]] passed to [path.basename]. *)
Definition meta_filename (meta : pydict) : result string :=
  match meta !! "filename" with
  | Some (PStr s) => Ok s
  | Some _ => Err TypeError
  | None => Err (KeyError "filename")
  end.

(** The body of [for im, meta in loader:] up to [pool.submit]. *)
Definition convert_job (args : Args) (x : image * pydict) : result Task :=
  let '(im, meta) := x in
  let '(rgb, alpha) := to_tensor im in
  let '(rgb, alpha) := convert rgb alpha in
  match meta_filename meta with
  | Err e => Err e
  | Ok fname =>
      let output_filename := set_image_ext (basename fname) (args_format args) in
      let '(meta, depth) := update_meta args meta in
      Ok (mkTask (to_image rgb alpha depth) (path_join (args_output args) output_filename)
                 meta (args_format args) None)
  end.

(** What the future of a task computes. *)
Definition save_of (t : Task) : result unit :=
  save_image (t_image t) (t_filename t) (t_meta t) (t_format t).

(** A file written by a successful [IL.save_image]. *)
Record Written := mkWritten {
  w_image : image;
  w_filename : string;
  w_meta : pydict;
  w_format : string
}.

Definition written_of (t : Task) : Written :=
  mkWritten (t_image t) (t_filename t) (t_meta t) (t_format t).

(** Where the main thread of [convert_files] is:
    - [PStart]: the [ImageLoader] is built, [os.makedirs(args.output,
      exist_ok=True)] has not run yet;
    - [PLoop]: in [for im, meta in loader];
    - [PJoin i]: in [for f in futures: f.result()], at [futures[i]];
    - [PExit r]: leaving the [with PoolExecutor(...)] block, whose exit
      runs [pool.shutdown(wait=True)], with outcome [r];
    - [PDone r]: [convert_files] has returned ([Ok]) or raised ([Err]). *)
Inductive Phase :=
| PStart
| PLoop
| PJoin (i : nat)
| PExit (r : result unit)
| PDone (r : result unit).

(** The state of a [convert_files] run: the [ImageLoader] producer and its
    bounded queue, the main thread, the pool's futures and the disk. *)
Record St := mkSt {
  s_pending : list string;            (* files the loader has not read yet *)
  s_queue : list (image * pydict);    (* decoded images in the queue *)
  s_cap : nat;                        (* [max_queue_size] *)
  s_failed : list (string * Exc);     (* decode failures of the loader *)
  s_phase : Phase;
  s_tasks : list Task;                (* [futures], in submission order *)
  s_disk : list Written               (* files written, in order *)
}.

(** Which thread moves next. *)
Inductive Choice :=
| Producer
| Consumer
| Worker (i : nat).

(** Modelled from the spec: [nunif.utils.image_loader.ImageLoader] (absent
    from this source).  Section 4.4 and 7 of the spec: a single producer reads
    the files in order and pushes each decoded image into a queue of capacity
    [max_queue_size], blocking while the queue is full; a decode failure is
    local to its file, recorded, and the producer continues with the next
    file. *)
Definition producer_step (s : St) : option St :=
  match s_pending s with
  | [] => None
  | f :: rest =>
      match load_image f with
      | Ok x =>
          if (length (s_queue s) <? s_cap s)%nat
          then Some (mkSt rest (s_queue s ++ [x]) (s_cap s) (s_failed s)
                          (s_phase s) (s_tasks s) (s_disk s))
          else None
      | Err e =>
          Some (mkSt rest (s_queue s) (s_cap s) (s_failed s ++ [(f, e)])
                     (s_phase s) (s_tasks s) (s_disk s))
      end
  end.

Definition task_done (t : Task) : bool :=
  match t_status t with Some _ => true | None => false end.

(** One step of the main thread of [convert_files]. *)
Definition consumer_step (args : Args) (s : St) : option St :=
  match s_phase s with
  | PStart =>
      (* [os.makedirs(args.output, exist_ok=True)]; the pool and the loop
         come after it *)
      match makedirs (args_output args) with
      | Ok _ => Some (mkSt (s_pending s) (s_queue s) (s_cap s) (s_failed s)
                           PLoop (s_tasks s) (s_disk s))
      | Err e => Some (mkSt (s_pending s) (s_queue s) (s_cap s) (s_failed s)
                            (PDone (Err e)) (s_tasks s) (s_disk s))
      end
  | PLoop =>
      match s_queue s with
      | x :: q =>
          match convert_job args x with
          | Ok t => Some (mkSt (s_pending s) q (s_cap s) (s_failed s)
                               PLoop (s_tasks s ++ [t]) (s_disk s))
          | Err e => Some (mkSt (s_pending s) q (s_cap s) (s_failed s)
                                (PExit (Err e)) (s_tasks s) (s_disk s))
          end
      | [] =>
          (* the iterator stops once the producer has read every file *)
          match s_pending s with
          | [] => Some (mkSt [] [] (s_cap s) (s_failed s) (PJoin 0) (s_tasks s) (s_disk s))
          | _ => None
          end
      end
  | PJoin i =>
      match s_tasks s !! i with
      | None => Some (mkSt (s_pending s) (s_queue s) (s_cap s) (s_failed s)
                           (PExit (Ok tt)) (s_tasks s) (s_disk s))
      | Some t =>
          match t_status t with
          | None => None   (* [f.result()] blocks *)
          | Some (Ok _) => Some (mkSt (s_pending s) (s_queue s) (s_cap s) (s_failed s)
                                      (PJoin (S i)) (s_tasks s) (s_disk s))
          | Some (Err e) => Some (mkSt (s_pending s) (s_queue s) (s_cap s) (s_failed s)
                                       (PExit (Err e)) (s_tasks s) (s_disk s))
          end
      end
  | PExit r =>
      (* [shutdown(wait=True)] blocks until every future is done *)
      if forallb task_done (s_tasks s)
      then Some (mkSt (s_pending s) (s_queue s) (s_cap s) (s_failed s)
                      (PDone r) (s_tasks s) (s_disk s))
      else None
  | PDone _ => None
  end.

(** A pool thread runs the pending future [futures[i]] to completion. *)
Definition worker_step (i : nat) (s : St) : option St :=
  match s_tasks s !! i with
  | Some t =>
      match t_status t with
      | None =>
          let r := save_of t in
          let t' := mkTask (t_image t) (t_filename t) (t_meta t) (t_format t) (Some r) in
          Some (mkSt (s_pending s) (s_queue s) (s_cap s) (s_failed s) (s_phase s)
                     (<[i := t']> (s_tasks s))
                     (match r with Ok _ => s_disk s ++ [written_of t] | Err _ => s_disk s end))
      | Some _ => None
      end
  | None => None
  end.

Definition step (args : Args) (c : Choice) (s : St) : option St :=
  match c with
  | Producer => producer_step s
  | Consumer => consumer_step args s
  | Worker i => worker_step i s
  end.

(** Running a schedule; [None] when the chosen thread cannot move. *)
Fixpoint run (args : Args) (sched : list Choice) (s : St) : option St :=
  match sched with
  | [] => Some s
  | c :: cs => match step args c s with
               | Some s' => run args cs s'
               | None => None
               end
  end.

(** [convert_files(ctx, files, args, enable_amp)] at its start:
    [ImageLoader(files=files, max_queue_size=128, ...)] is built, and the
    main thread is about to call [os.makedirs]; [futures] is empty. *)
Definition convert_files_init (files : list string) : St :=
  mkSt files [] 128 [] PStart [] [].

(** The outcome of [for f in futures: f.result()] once every future is
    done: the error of the first failing future, in submission order. *)
Fixpoint first_error (ts : list Task) : result unit :=
  match ts with
  | [] => Ok tt
  | t :: ts' => match t_status t with
                | Some (Err e) => Err e
                | _ => first_error ts'
                end
  end.

(** Images the loader decodes, and its decode failures, in file order. *)
Definition loaded (files : list string) : list (image * pydict) :=
  omap (fun f => match load_image f with Ok x => Some x | Err _ => None end) files.

Definition decode_failures (files : list string) : list (string * Exc) :=
  omap (fun f => match load_image f with Ok _ => None | Err e => Some (f, e) end) files.

(** The task content without the state of its future. *)
Definition task_key (t : Task) : Written := written_of t.

Definition job_key (args : Args) (x : image * pydict) : option Written :=
  match convert_job args x with Ok t => Some (task_key t) | Err _ => None end.

End Pipeline.

Arguments mkTask {image} t_image t_filename t_meta t_format t_status.
Arguments t_image {image} t.
Arguments t_filename {image} t.
Arguments t_meta {image} t.
Arguments t_format {image} t.
Arguments t_status {image} t.
Arguments mkWritten {image} w_image w_filename w_meta w_format.
Arguments w_image {image} w.
Arguments w_filename {image} w.
Arguments w_meta {image} w.
Arguments w_format {image} w.
Arguments mkSt {image} s_pending s_queue s_cap s_failed s_phase s_tasks s_disk.
Arguments s_pending {image} s.
Arguments s_queue {image} s.
Arguments s_cap {image} s.
Arguments s_failed {image} s.
Arguments s_phase {image} s.
Arguments s_tasks {image} s.
Arguments s_disk {image} s.
Arguments written_of {image} t.
Arguments task_key {image} t.
Arguments task_done {image} t.
Arguments first_error {image} ts.
Arguments convert_files_init {image} files.
End Cli.

(** *** [csv.reader] (default [excel] dialect: delimiter comma, quotechar
    the double quote, doublequote, no escapechar, not strict), following the
    parser states of CPython's [_csv.c] as of Python 3.11. *)
Module Csv.

Inductive PState :=
| START_RECORD
| START_FIELD
| IN_FIELD
| IN_QUOTED_FIELD
| QUOTE_IN_QUOTED_FIELD
| EAT_CRNL.

Record Parser := mkParser {
  p_state : PState;
  p_field : list ascii;       (* the field being read *)
  p_fields : list string      (* the fields of the record so far *)
}.

Definition save_field (p : Parser) (st : PState) : Parser :=
  mkParser st [] (p_fields p ++ [String.string_of_list_ascii (p_field p)]).

(** [csv.field_size_limit()], 131072 unless changed. *)
Definition field_limit : Z := 131072.

(** [parse_add_char]: a field may not grow beyond [field_limit]. *)
Definition add_char (p : Parser) (st : PState) (c : ascii) : result Parser :=
  if (field_limit <=? Z.of_nat (length (p_field p)))%Z
  then Err (CsvError "field larger than field limit (131072)")
  else Ok (mkParser st (p_field p ++ [c]) (p_fields p)).

Definition set_state (p : Parser) (st : PState) : Parser :=
  mkParser st (p_field p) (p_fields p).

Definition is_crlf (c : ascii) : bool :=
  Ascii.eqb c "010"%char || Ascii.eqb c "013"%char.

(** [parse_process_char]; [None] is the end-of-line marker [EOL]. *)
Definition process_char (p : Parser) (c : option ascii) : result Parser :=
  let after_eol := match c with None => START_RECORD | Some _ => EAT_CRNL end in
  let start_field (p : Parser) :=
    match c with
    | None => Ok (save_field p after_eol)
    | Some ch =>
        if is_crlf ch then Ok (save_field p after_eol)
        else if Ascii.eqb ch "034"%char then Ok (set_state p IN_QUOTED_FIELD)
        else if Ascii.eqb ch ","%char then Ok (save_field p START_FIELD)
        else add_char p IN_FIELD ch
    end in
  match p_state p with
  | START_RECORD =>
      match c with
      | None => Ok p                                     (* empty line *)
      | Some ch => if is_crlf ch then Ok (set_state p EAT_CRNL)
                   else start_field (set_state p START_FIELD)
      end
  | START_FIELD => start_field p
  | IN_FIELD =>
      match c with
      | None => Ok (save_field p after_eol)
      | Some ch =>
          if is_crlf ch then Ok (save_field p after_eol)
          else if Ascii.eqb ch ","%char then Ok (save_field p START_FIELD)
          else add_char p IN_FIELD ch
      end
  | IN_QUOTED_FIELD =>
      match c with
      | None => Ok p
      | Some ch => if Ascii.eqb ch "034"%char then Ok (set_state p QUOTE_IN_QUOTED_FIELD)
                   else add_char p IN_QUOTED_FIELD ch
      end
  | QUOTE_IN_QUOTED_FIELD =>
      match c with
      | None => Ok (save_field p after_eol)
      | Some ch =>
          if Ascii.eqb ch "034"%char then add_char p IN_QUOTED_FIELD ch
          else if Ascii.eqb ch ","%char then Ok (save_field p START_FIELD)
          else if is_crlf ch then Ok (save_field p after_eol)
          else add_char p IN_FIELD ch
      end
  | EAT_CRNL =>
      match c with
      | None => Ok (set_state p START_RECORD)
      | Some ch => if is_crlf ch then Ok p
                   else Err (CsvError ("new-line character seen in unquoted field - "
                                       ++ "do you need to open the file in universal-newline mode?"))
      end
  end.

(** One line: its characters, then [EOL].  Since CPython 3.11 a [NUL]
    character is an ordinary character. *)
Fixpoint feed_chars (p : Parser) (l : list ascii) : result Parser :=
  match l with
  | [] => process_char p None
  | c :: l' =>
      match process_char p (Some c) with
      | Ok p' => feed_chars p' l'
      | Err e => Err e
      end
  end.

Definition fresh : Parser := mkParser START_RECORD [] [].

(** [Reader_iternext] over the remaining lines: a record is returned once
    the parser is back in [START_RECORD]; at the end of the input a
    partial record is returned only when a field is open. *)
Fixpoint rows_of_lines (p : Parser) (lines : list (list ascii)) : result (list (list string)) :=
  match lines with
  | [] =>
      if bool_decide (p_field p <> []) || (match p_state p with IN_QUOTED_FIELD => true | _ => false end)
      then Ok [p_fields p ++ [String.string_of_list_ascii (p_field p)]]
      else Ok []
  | line :: rest =>
      match feed_chars p line with
      | Err e => Err e
      | Ok p' =>
          match p_state p' with
          | START_RECORD =>
              match rows_of_lines fresh rest with
              | Ok rows => Ok (p_fields p' :: rows)
              | Err e => Err e
              end
          | _ => rows_of_lines p' rest
          end
      end
  end.

(** Iterating a text file opened with [open(txt, "r")]: universal newlines
    turn CR LF and CR into LF, and each line keeps its LF. *)
Fixpoint universal_newlines (l : list ascii) : list ascii :=
  match l with
  | [] => []
  | c :: l' =>
      if Ascii.eqb c "013"%char then
        match l' with
        | c' :: l'' => if Ascii.eqb c' "010"%char then "010"%char :: universal_newlines l''
                       else "010"%char :: universal_newlines l'
        | [] => ["010"%char]
        end
      else c :: universal_newlines l'
  end.

Fixpoint split_lines_acc (cur : list ascii) (l : list ascii) : list (list ascii) :=
  match l with
  | [] => match cur with [] => [] | _ => [cur] end
  | c :: l' => if Ascii.eqb c "010"%char then (cur ++ [c]) :: split_lines_acc [] l'
               else split_lines_acc (cur ++ [c]) l'
  end.

Definition file_lines (content : string) : list (list ascii) :=
  split_lines_acc [] (universal_newlines (String.list_ascii_of_string content)).

Definition reader (content : string) : result (list (list string)) :=
  rows_of_lines fresh (file_lines content).

End Csv.

(** [def load_files(txt)] over the rows of [csv.reader(f)]:
    [files.append(row[0])], where [row[0]] raises [IndexError] on an empty
    row. *)
Fixpoint load_files_rows (rows : list (list string)) : result (list string) :=
  match rows with
  | [] => Ok []
  | row :: rest =>
      match row with
      | [] => Err IndexError
      | first :: _ =>
          match load_files_rows rest with
          | Ok files => Ok (first :: files)
          | Err e => Err e
          end
      end
  end.

Definition load_files (content : string) : result (list string) :=
  match Csv.reader content with
  | Ok rows => load_files_rows rows
  | Err e => Err e
  end.



(** [choices] of the [--method] option of [waifu2x.cli]. *)
Definition method_choices : list string :=
  ["scale4x"; "scale2x"; "noise_scale4x"; "noise_scale2x"; "scale"; "noise"; "noise_scale"].

(** [# alias for typo] in [__main__]:
<<
    if args.method == "scale2x": args.method = "scale"
    elif args.method == "noise_scale2x": args.method = "noise_scale"
>> *)
Definition alias_method (m : string) : string :=
  if String.eqb m "scale2x" then "scale"
  else if String.eqb m "noise_scale2x" then "noise_scale"
  else m.

(* ================================================================== *)
(** * A concrete instance: the codec, the model and the file system *)

Module Demo.
Import Cli.

(** A file decodes to an image named after it, except ["3.png"], which is
    corrupt; [IL.load_image] puts the path in [meta["filename"]]. *)
Definition demo_load (f : string) : result (string * pydict) :=
  if String.eqb f "3.png" then Err (CodecError "cannot identify image file")
  else Ok (f, <["filename" := PStr f]> ∅).

Definition demo_to_tensor (im : string) : string * option string := (im, None).

Definition demo_convert (rgb : string) (alpha : option string) : string * option string :=
  (("x2:" ++ rgb)%string, alpha).

Definition demo_to_image (rgb : string) (alpha : option string) (depth : PyVal) : string := rgb.

(** Writing fails, with a full disk, for the paths in [bad]. *)
Definition demo_save (bad : list string) (im filename : string) (meta : pydict)
    (fmt : string) : result unit :=
  if bool_decide (filename ∈ bad) then Err (OSError ("No space left on device: " ++ filename))
  else Ok tt.

(** [set_image_ext]: [path.splitext(filename)[0] + "." + format]. *)
Definition demo_set_image_ext (filename fmt : string) : string :=
  (fst (PyStr.splitext filename) ++ "." ++ fmt)%string.

Definition demo_basename (p : string) : string := p.

Definition demo_path_join (d f : string) : string := (d ++ "/" ++ f)%string.

(** [os.makedirs(d, exist_ok=True)]: the empty path cannot be created, and
    ["out.png"] is an existing file. *)
Definition demo_makedirs (d : string) : result unit :=
  if String.eqb d String.EmptyString
  then Err (OSError "[Errno 2] No such file or directory: ''")
  else if String.eqb d "out.png" then Err (OSError "[Errno 17] File exists: 'out.png'")
  else Ok tt.

Definition demo_args : Args := mkArgs "in" "out" "png" None false.

Definition demo_files : list string := ["1.png"; "2.png"; "3.png"; "4.png"; "5.png"].

Abbreviation dstep bad :=
  (Cli.step string string demo_load demo_to_tensor demo_convert demo_to_image (demo_save bad)
    demo_set_image_ext demo_basename demo_path_join demo_makedirs).

Abbreviation drun bad :=
  (Cli.run string string demo_load demo_to_tensor demo_convert demo_to_image (demo_save bad)
    demo_set_image_ext demo_basename demo_path_join demo_makedirs).

Abbreviation dconvert_file bad :=
  (Cli.convert_file string string demo_load demo_to_tensor demo_convert demo_to_image (demo_save bad)).

Abbreviation dconvert_job :=
  (Cli.convert_job string string demo_to_tensor demo_convert demo_to_image
    demo_set_image_ext demo_basename demo_path_join).

Abbreviation dloaded := (Cli.loaded string demo_load).

Abbreviation ddecode_failures := (Cli.decode_failures string demo_load).

Abbreviation dsave_of bad := (Cli.save_of string (demo_save bad)).

(** The state a schedule reaches from [convert_files_init files]. *)
Definition demo_state (bad : list string) (sched : list Choice) (files : list string) : St string :=
  match drun bad demo_args sched (convert_files_init files) with
  | Some s => s
  | None => convert_files_init files
  end.

(** The loader reads the five files, the main thread creates the output
    directory, submits the four decoded images and enters the join loop, the pool runs the four
    futures, and the main thread joins them and leaves. *)
Definition demo_sched : list Choice :=
  repeat Producer 5 ++ repeat Consumer 6 ++ [Worker 0; Worker 1; Worker 2; Worker 3]
  ++ repeat Consumer 6.

(** As [demo_sched], but the join loop stops at the first future, which
    failed. *)
Definition demo_sched_fail : list Choice :=
  repeat Producer 5 ++ repeat Consumer 6 ++ [Worker 0; Worker 1; Worker 2; Worker 3]
  ++ repeat Consumer 2.

(** Writing the first two outputs fails. *)
Definition demo_bad : list string := ["out/1.png"; "out/2.png"].

(** 130 readable files, and the loader running ahead of the main thread. *)
Definition many_files : list string := repeat "1.png" 130.

Definition fill_queue : list Choice := repeat Producer 128.






(** The text of a file made of [ls], one line each. *)
Fixpoint text_of_lines (ls : list string) : string :=
  match ls with
  | [] => String.EmptyString
  | l :: ls' => (l ++ String.String "010" (text_of_lines ls'))%string
  end.


Definition depth_args : Args := mkArgs "in.png" "out.png" "png" (Some 16) false.

End Demo.

(* ================================================================== *)
(** * Properties *)

(* ------------------------------------------------------------------ *)
(** ** [Model] and [I2IBaseModel] *)

Module NunifModelFacts.
Import NunifModel.

(** The filter of [register_kwargs]: [name not in {"self"}]. *)
Definition not_self (kv : string * PyVal) : Prop := kv.1 <> "self"%string.

Lemma register_one_kwargs (m : Model) (kv : string * PyVal) :
  kwargs (register_one m kv) =
    (if bool_decide (kv.1 = "self"%string) then kwargs m else <[kv.1 := kv.2]> (kwargs m))
  /\ updated_at (register_one m kv) = updated_at m.
Proof.
  destruct kv as [name value]; unfold register_one; simpl.
  destruct (bool_decide (name = "self"%string)) eqn:E1;
  destruct (bool_decide (name ∈ ["self"%string])) eqn:E2; simpl; auto;
  apply bool_decide_eq_true in E1 || apply bool_decide_eq_false in E1;
  apply bool_decide_eq_true in E2 || apply bool_decide_eq_false in E2;
  set_solver.
Qed.

(** The loop over a list of items with distinct names. *)
Lemma fold_register_one (l : list (string * PyVal)) (m : Model) :
  NoDup l.*1 ->
  kwargs (fold_left register_one l m) = list_to_map (filter not_self l) ∪ kwargs m
  /\ updated_at (fold_left register_one l m) = updated_at m.
Proof.
  revert m; induction l as [|[name value] l IH]; intros m Hnd; cbn [fold_left].
  - split; [|done]. by rewrite filter_nil, list_to_map_nil, (left_id_L ∅ (∪)).
  - rewrite fmap_cons in Hnd; apply NoDup_cons in Hnd as [Hnotin Hnd].
    destruct (IH (register_one m (name, value)) Hnd) as [Hk Hu].
    destruct (register_one_kwargs m (name, value)) as [Hk1 Hu1].
    split; [|congruence].
    rewrite Hk, Hk1. cbn [fst snd].
    destruct (decide (name = "self"%string)) as [Hs|Hs];
      [rewrite bool_decide_true by exact Hs | rewrite bool_decide_false by exact Hs].
    + assert (Hns : ~ not_self (name, value)) by (unfold not_self; simpl; tauto).
      rewrite (filter_cons_False _ _ _ Hns). reflexivity.
    + rewrite filter_cons_True by exact Hs.
      rewrite list_to_map_cons.
      apply map_eq; intros k.
      rewrite !lookup_union.
      destruct (decide (k = name)) as [->|Hk'].
      * rewrite !lookup_insert_eq.
        rewrite (not_elem_of_list_to_map_1 (filter not_self l) name).
        -- by destruct (kwargs m !! name).
        -- intros Hin; apply Hnotin.
           apply list_elem_of_fmap in Hin as [[k v] [Hkv Hin]]; simpl in Hkv; subst.
           apply list_elem_of_filter in Hin as [_ Hin].
           apply list_elem_of_fmap. exists (k, v); auto.
      * rewrite !lookup_insert_ne by congruence. done.
Qed.

Lemma register_kwargs_spec (m : Model) (kw : pydict) :
  kwargs (register_kwargs m kw) = filter not_self kw ∪ kwargs m
  /\ updated_at (register_kwargs m kw) = updated_at m.
Proof.
  unfold register_kwargs.
  destruct (fold_register_one (map_to_list kw) m (NoDup_fst_map_to_list kw)) as [Hk Hu].
  by rewrite Hk, Hu, map_filter_alt.
Qed.

Lemma filter_not_self_union (a b : pydict) :
  filter not_self (a ∪ b) = filter not_self a ∪ filter not_self b.
Proof.
  apply map_eq; intros k.
  rewrite lookup_union, !map_lookup_filter, lookup_union.
  destruct (a !! k), (b !! k); simpl; try done;
  unfold guard; simpl; destruct (decide (not_self (k, _))); done.
Qed.

Lemma Model_init_spec (kw : pydict) :
  kwargs (Model_init kw) = filter not_self kw /\ updated_at (Model_init kw) = None.
Proof.
  unfold Model_init. destruct (register_kwargs_spec (mkModel ∅ None) kw) as [Hk Hu].
  simpl in *. by rewrite Hk, (right_id_L ∅ (∪)).
Qed.

Lemma fold_register_kwargs (kws : list pydict) (m : Model) (acc : pydict) :
  kwargs m = filter not_self acc ->
  kwargs (fold_left register_kwargs kws m) =
    filter not_self (foldl (fun acc kw => kw ∪ acc) acc kws).
Proof.
  revert m acc; induction kws as [|kw kws IH]; intros m acc Hm; simpl; [done|].
  apply IH. destruct (register_kwargs_spec m kw) as [Hk _].
  by rewrite Hk, Hm, filter_not_self_union.
Qed.

(** [C5] After constructing a [Model] with the mapping [kw0] and calling
    [register_kwargs] with [kws] in turn, the captured params are exactly the
    entries given (a later call overriding an earlier value of the same
    name) except the key ["self"], which is never a key of them. *)
Theorem get_kwargs_exactly_given_but_self (kw0 : pydict) (kws : list pydict) :
  get_kwargs (fold_left register_kwargs kws (Model_init kw0)) =
    filter not_self (foldl (fun acc kw => kw ∪ acc) kw0 kws)
  /\ get_kwargs (fold_left register_kwargs kws (Model_init kw0)) !! "self"%string = None.
Proof.
  assert (Heq := fold_register_kwargs kws (Model_init kw0) kw0
                   (proj1 (Model_init_spec kw0))).
  unfold get_kwargs; split; [exact Heq|].
  rewrite Heq, map_lookup_filter.
  by destruct (foldl _ kw0 kws !! "self"%string).
Qed.

(** [C6] (as the code has it) Constructing a [Model], or an
    [I2IBaseModel], leaves [updated_at] unset: [self.updated_at = None]. *)
Theorem Model_init_updated_at_None (kw : pydict) (scale offset : Z) :
  updated_at (Model_init kw) = None
  /\ updated_at (i2i_base (I2IBaseModel_init kw scale offset)) = None.
Proof.
  split; apply (proj2 (Model_init_spec kw)).
Qed.

(** [C6] counterexample: right after construction there is no timestamp. *)
Lemma Model_init_no_timestamp :
  ~ (exists t : Z, updated_at (Model_init ∅) = Some t).
Proof.
  intros [t Ht]. vm_compute in Ht. discriminate.
Qed.







End NunifModelFacts.

(* ------------------------------------------------------------------ *)
(** ** [modcrop] *)

Module ModcropFacts.
Import Modcrop.

Section WithPixels.
Context {P : Type} (fill : P).

Lemma modcrop_cases (im : Image P) :
  (im_w im mod 4 = 0 /\ im_h im mod 4 = 0 /\ modcrop fill im = im)
  \/ ((im_w im mod 4 <> 0 \/ im_h im mod 4 <> 0)
      /\ modcrop fill im = pad fill im 0 0 (- (im_w im mod 4)) (- (im_h im mod 4))).
Proof.
  unfold modcrop.
  destruct (Z.eqb_spec (- (im_w im mod 4)) 0) as [Hw|Hw];
  destruct (Z.eqb_spec (- (im_h im mod 4)) 0) as [Hh|Hh]; simpl;
  [left; repeat split; lia | right; split; [lia|reflexivity] ..].
Qed.

(** [C10] [modcrop] crops [im] from the right and bottom edges to the
    largest multiple of 4 not exceeding its width and height, keeping the
    pixels of the remaining area; an image whose sides are multiples of 4
    is returned as it is; and [modcrop] is idempotent. *)
Theorem modcrop_spec (im : Image P) :
  let im' := modcrop fill im in
  (im_w im' mod 4 = 0 /\ im_w im' <= im_w im
   /\ (forall m, m mod 4 = 0 -> m <= im_w im -> m <= im_w im'))
  /\ (im_h im' mod 4 = 0 /\ im_h im' <= im_h im
   /\ (forall m, m mod 4 = 0 -> m <= im_h im -> m <= im_h im'))
  /\ (forall x y, 0 <= x < im_w im' -> 0 <= y < im_h im' -> im_px im' x y = im_px im x y)
  /\ (im_w im mod 4 = 0 -> im_h im mod 4 = 0 -> im' = im)
  /\ modcrop fill im' = im'.
Proof.
  intros im'.
  assert (Hw : im_w im' = im_w im - im_w im mod 4 /\ im_h im' = im_h im - im_h im mod 4
               /\ forall x y, 0 <= x < im_w im' -> 0 <= y < im_h im' ->
                              im_px im' x y = im_px im x y).
  { unfold im'. destruct (modcrop_cases im) as [[H1 [H2 ->]]|[_ ->]].
    - rewrite H1, H2. split; [lia|split; [lia|auto]].
    - simpl. split; [lia|split; [lia|]].
      intros x y Hx Hy.
      pose proof (Z.mod_pos_bound (im_w im) 4 ltac:(lia)).
      pose proof (Z.mod_pos_bound (im_h im) 4 ltac:(lia)).
      assert (E : (0 <=? x) && (x <? 0 + im_w im) && (0 <=? y) && (y <? 0 + im_h im) = true).
      { apply andb_true_intro; split; [apply andb_true_intro; split;
          [apply andb_true_intro; split|]|]; apply Z.leb_le || apply Z.ltb_lt; lia. }
      rewrite E. f_equal; lia. }
  destruct Hw as [Hw [Hh Hpx]].
  pose proof (Z.mod_pos_bound (im_w im) 4 ltac:(lia)) as Bw.
  pose proof (Z.mod_pos_bound (im_h im) 4 ltac:(lia)) as Bh.
  assert (Mw : im_w im' mod 4 = 0).
  { rewrite Hw, Zminus_mod, Z.mod_mod, Z.sub_diag by lia. reflexivity. }
  assert (Mh : im_h im' mod 4 = 0).
  { rewrite Hh, Zminus_mod, Z.mod_mod, Z.sub_diag by lia. reflexivity. }
  split; [|split; [|split; [exact Hpx|split]]].
  - repeat split; [exact Mw|lia|].
    intros m Hm Hle. rewrite Hw.
    pose proof (Z.div_mod m 4 ltac:(lia)) as Dm.
    pose proof (Z.div_mod (im_w im) 4 ltac:(lia)) as D.
    rewrite Hm in Dm. lia.
  - repeat split; [exact Mh|lia|].
    intros m Hm Hle. rewrite Hh.
    pose proof (Z.div_mod m 4 ltac:(lia)) as Dm.
    pose proof (Z.div_mod (im_h im) 4 ltac:(lia)) as D.
    rewrite Hm in Dm. lia.
  - intros H1 H2. unfold im'.
    destruct (modcrop_cases im) as [[_ [_ ->]]|[[C|C] _]]; [reflexivity|lia|lia].
  - destruct (modcrop_cases im') as [[_ [_ E]]|[[C|C] _]]; [exact E|lia|lia].
Qed.

End WithPixels.
End ModcropFacts.

(* ------------------------------------------------------------------ *)
(** ** [convert_file] and [convert_files] *)

Module PipelineFacts.
Import Cli.

Section Facts.
Context {image tensor : Type}
  (load_image : string -> result (image * pydict))
  (to_tensor : image -> tensor * option tensor)
  (convert : tensor -> option tensor -> tensor * option tensor)
  (to_image : tensor -> option tensor -> PyVal -> image)
  (save_image : image -> string -> pydict -> string -> result unit)
  (set_image_ext : string -> string -> string)
  (basename : string -> string)
  (path_join : string -> string -> string)
  (makedirs : string -> result unit).

Local Abbreviation convert_file :=
  (Cli.convert_file image tensor load_image to_tensor convert to_image save_image).
Local Abbreviation convert_job :=
  (Cli.convert_job image tensor to_tensor convert to_image set_image_ext basename path_join).
Local Abbreviation job_key :=
  (Cli.job_key image tensor to_tensor convert to_image set_image_ext basename path_join).
Local Abbreviation save_of := (Cli.save_of image save_image).
Local Abbreviation step :=
  (Cli.step image tensor load_image to_tensor convert to_image save_image
        set_image_ext basename path_join makedirs).
Local Abbreviation run :=
  (Cli.run image tensor load_image to_tensor convert to_image save_image
       set_image_ext basename path_join makedirs).
Local Abbreviation loaded := (Cli.loaded image load_image).
Local Abbreviation decode_failures := (Cli.decode_failures image load_image).
Local Abbreviation Task := (Cli.Task image).
Local Abbreviation St := (Cli.St image).

Lemma convert_job_pending (args : Args) (x : image * pydict) (t : Task) :
  convert_job args x = Ok t -> t_status t = None.
Proof.
  destruct x as [im meta]. unfold Cli.convert_job.
  destruct (to_tensor im) as [rgb alpha].
  destruct (convert rgb alpha) as [rgb' alpha'].
  destruct (meta_filename meta) as [fname|e]; [|discriminate].
  destruct (update_meta args meta) as [meta' depth].
  intros H; inversion H; reflexivity.
Qed.

Lemma job_key_ok (args : Args) (x : image * pydict) (t : Task) :
  convert_job args x = Ok t -> job_key args x = Some (task_key t).
Proof. intros H. unfold Cli.job_key. rewrite H. reflexivity. Qed.

Lemma save_of_key (t t' : Task) :
  task_key t = task_key t' -> save_of t = save_of t'.
Proof.
  destruct t, t'; unfold task_key, written_of, Cli.save_of; simpl.
  intros H; inversion H; reflexivity.
Qed.

Section Invariant.
Context (args : Args) (files : list string).

(** The futures [0 .. i-1] have returned normally. *)
Definition prefix_ok (ts : list Task) (i : nat) : Prop :=
  forall j, (j < i)%nat -> exists t, ts !! j = Some t /\ t_status t = Some (Ok tt).

(** How the main thread can leave the [with] block with outcome [r]:
    the join loop went through every future, or stopped at the first
    failing one, or the loop body raised for a decoded image; or, before
    any future exists, [os.makedirs(args.output, exist_ok=True)] raised. *)
Definition outcome_ok (ts : list Task) (r : result unit) : Prop :=
  (r = Ok tt /\ prefix_ok ts (length ts))
  \/ (exists i t e, r = Err e /\ prefix_ok ts i /\ ts !! i = Some t
                    /\ t_status t = Some (Err e))
  \/ (exists x e, x ∈ loaded files /\ convert_job args x = Err e /\ r = Err e)
  \/ (exists e, makedirs (args_output args) = Err e /\ r = Err e /\ ts = []).

Definition phase_inv (s : St) : Prop :=
  match s_phase s with
  | PStart => s_tasks s = []
  | PLoop => True
  | PJoin i => (i <= length (s_tasks s))%nat /\ prefix_ok (s_tasks s) i
  | PExit r => outcome_ok (s_tasks s) r
  | PDone r => outcome_ok (s_tasks s) r /\ forallb task_done (s_tasks s) = true
  end.

(** A future is pending or holds what [IL.save_image] returned for it; a
    successful one has written its file. *)
Definition tasks_inv (s : St) : Prop :=
  forall i t, s_tasks s !! i = Some t ->
    (t_status t = None \/ t_status t = Some (save_of t))
    /\ (t_status t = Some (Ok tt) -> written_of t ∈ s_disk s).

Definition keys (ts : list Task) : list (option (Written image)) :=
  (fun t => Some (task_key t)) <$> ts.

(** The loader has read a prefix [done] of [files]; the main thread has
    taken [consumed] from the queue and submitted one future per image, in
    order, unless the loop body raised on the last one, or [os.makedirs]
    raised before the loop. *)
Definition order_inv (s : St) : Prop :=
  exists done consumed,
    files = done ++ s_pending s /\ s_failed s = decode_failures done
    /\ consumed ++ s_queue s = loaded done
    /\ ((keys (s_tasks s) = job_key args <$> consumed
         /\ (s_phase s <> PLoop -> s_phase s <> PStart -> s_pending s = [] /\ s_queue s = []))
        \/ (exists c' x e, consumed = c' ++ [x]
              /\ keys (s_tasks s) = job_key args <$> c'
              /\ convert_job args x = Err e
              /\ (s_phase s = PExit (Err e) \/ s_phase s = PDone (Err e)))
        \/ (consumed = [] /\ s_tasks s = []
              /\ exists e, makedirs (args_output args) = Err e /\ s_phase s = PDone (Err e))).

Definition cap_inv (s : St) : Prop :=
  s_cap s = 128%nat /\ (length (s_queue s) <= s_cap s)%nat.

Definition inv (s : St) : Prop :=
  cap_inv s /\ tasks_inv s /\ order_inv s /\ phase_inv s.

Lemma inv_init : inv (convert_files_init files).
Proof.
  split; [|split; [|split]].
  - split; simpl; lia.
  - intros i t H. simpl in H. discriminate.
  - exists [], []. simpl. split; [reflexivity|split; [reflexivity|split; [reflexivity|]]].
    left. split; [reflexivity|]. intros _ H; exfalso; apply H; reflexivity.
  - reflexivity.
Qed.

Lemma loaded_app (l1 l2 : list string) : loaded (l1 ++ l2) = loaded l1 ++ loaded l2.
Proof. unfold Cli.loaded. apply omap_app. Qed.

Lemma decode_failures_app (l1 l2 : list string) :
  decode_failures (l1 ++ l2) = decode_failures l1 ++ decode_failures l2.
Proof. unfold Cli.decode_failures. apply omap_app. Qed.

Lemma loaded_one (f : string) :
  loaded [f] = match load_image f with Ok x => [x] | Err _ => [] end.
Proof. unfold Cli.loaded; simpl. by destruct (load_image f). Qed.

Lemma decode_failures_one (f : string) :
  decode_failures [f] = match load_image f with Ok _ => [] | Err e => [(f, e)] end.
Proof. unfold Cli.decode_failures; simpl. by destruct (load_image f). Qed.

Lemma prefix_ok_insert (ts : list Task) (k i : nat) (t t' : Task) :
  prefix_ok ts k -> ts !! i = Some t -> t_status t = None ->
  prefix_ok (<[i := t']> ts) k.
Proof.
  intros Hp Hi Hn j Hj. destruct (Hp j Hj) as [u [Hu Hs]].
  exists u; split; [|exact Hs].
  rewrite list_lookup_insert_ne; [exact Hu|].
  intros ->. rewrite Hi in Hu. inversion Hu; subst. congruence.
Qed.

Lemma prefix_ok_app (ts : list Task) (k : nat) (t : Task) :
  prefix_ok ts k -> prefix_ok (ts ++ [t]) k.
Proof.
  intros Hp j Hj. destruct (Hp j Hj) as [u [Hu Hs]].
  exists u; split; [|exact Hs]. rewrite lookup_app_l; [exact Hu|].
  apply lookup_lt_Some in Hu. exact Hu.
Qed.

Lemma producer_inv (s s' : St) :
  inv s -> Cli.producer_step image load_image s = Some s' -> inv s'.
Proof.
  intros [Hc [Ht [Ho Hph]]] Hs.
  destruct s as [pend q cap failed ph ts disk]; unfold Cli.producer_step in Hs; simpl in *.
  destruct pend as [|f rest]; [discriminate|].
  destruct Ho as [done [consumed [Hf [Hfail [Hq Hmode]]]]]; simpl in *.
  destruct (load_image f) as [x|e] eqn:Hl.
  - destruct (length q <? cap)%nat eqn:Hlt; [|discriminate].
    injection Hs as <-. apply Nat.ltb_lt in Hlt.
    split; [|split; [|split]].
    + destruct Hc as [Hc1 Hc2]; split; simpl in *; [assumption|rewrite length_app; simpl; lia].
    + exact Ht.
    + exists (done ++ [f]), consumed. simpl.
      split; [rewrite Hf, <- app_assoc; reflexivity|].
      split; [rewrite decode_failures_app, Hfail, decode_failures_one, Hl, app_nil_r; reflexivity|].
      split; [rewrite loaded_app, <- Hq, <- app_assoc, loaded_one, Hl; reflexivity|].
      destruct Hmode as [[Hk Himp]|HB]; [left; split; [exact Hk|]|right; exact HB].
      intros Hph' Hph2. destruct (Himp Hph' Hph2) as [Hp _]. discriminate.
    + exact Hph.
  - injection Hs as <-.
    split; [|split; [|split]].
    + exact Hc.
    + exact Ht.
    + exists (done ++ [f]), consumed. simpl.
      split; [rewrite Hf, <- app_assoc; reflexivity|].
      split; [rewrite decode_failures_app, Hfail, decode_failures_one, Hl; reflexivity|].
      split; [rewrite loaded_app, <- Hq, loaded_one, Hl, app_nil_r; reflexivity|].
      destruct Hmode as [[Hk Himp]|HB]; [left; split; [exact Hk|]|right; exact HB].
      intros Hph' Hph2. destruct (Himp Hph' Hph2) as [Hp _]. discriminate.
    + exact Hph.
Qed.

Lemma consumer_inv (s s' : St) :
  inv s ->
  Cli.consumer_step image tensor to_tensor convert to_image set_image_ext basename path_join
    makedirs args s = Some s' ->
  inv s'.
Proof.
  intros [Hc [Ht [Ho Hph]]] Hs.
  destruct s as [pend q cap failed ph ts disk]; unfold Cli.consumer_step in Hs; simpl in *.
  destruct Ho as [done [consumed [Hf [Hfail [Hq Hmode]]]]]; simpl in *.
  destruct ph as [| |i|r|r].
  - (* [os.makedirs] *)
    cbn in Hph. subst ts.
    destruct Hmode as [[Hk _]|[[c' [x [e [_ [_ [_ [Hp|Hp]]]]]]]|[_ [_ [e [_ Hp]]]]]];
      [|discriminate|discriminate|discriminate].
    assert (Hc0 : consumed = []).
    { destruct consumed; [reflexivity|]. unfold keys in Hk; cbn in Hk; discriminate. }
    destruct (makedirs (args_output args)) as [u|e] eqn:Hm; injection Hs as <-.
    + split; [|split; [|split]]; [exact Hc|exact Ht| |exact I].
      exists done, consumed. cbn. split; [exact Hf|split; [exact Hfail|split; [exact Hq|]]].
      left. split; [exact Hk|]. intros H; exfalso; apply H; reflexivity.
    + split; [|split; [|split]]; [exact Hc|exact Ht| |].
      * exists done, consumed. cbn. split; [exact Hf|split; [exact Hfail|split; [exact Hq|]]].
        right; right. split; [exact Hc0|split; [reflexivity|]]. exists e. auto.
      * cbn. split; [|reflexivity]. right; right; right. exists e. auto.
  - (* the [for im, meta in loader] loop *)
    destruct Hmode as [[Hk Himp]|[[c' [x [e [_ [_ [_ [Hp|Hp]]]]]]]|[_ [_ [e [_ Hp]]]]]];
      [|discriminate|discriminate|discriminate].
    destruct q as [|x q].
    + destruct pend as [|f rest]; [|discriminate].
      injection Hs as <-. rewrite app_nil_r in Hf, Hq.
      split; [|split; [|split]].
      * destruct Hc; split; simpl; [assumption|lia].
      * exact Ht.
      * exists done, consumed. cbn. rewrite !app_nil_r.
        split; [exact Hf|split; [exact Hfail|split; [exact Hq|]]].
        left; split; [exact Hk|auto].
      * cbn. split; [lia|]. intros j Hj; lia.
    + destruct (Cli.convert_job image tensor to_tensor convert to_image set_image_ext basename
                  path_join args x) as [t|e] eqn:Hj.
      * injection Hs as <-. split; [|split; [|split]].
        -- destruct Hc as [Hc1 Hc2]; split; simpl in *; [assumption|lia].
        -- intros k u Hu. simpl in Hu.
           apply lookup_app_Some in Hu as [Hu|[_ Hu]].
           ++ destruct (Ht k u Hu) as [H1 H2]. split; [exact H1|exact H2].
           ++ destruct (k - length ts)%nat as [|n]; simpl in Hu; [|rewrite lookup_nil in Hu; discriminate].
              injection Hu as <-. rewrite (convert_job_pending args x t Hj).
              split; [left; reflexivity|discriminate].
        -- exists done, (consumed ++ [x]). cbn.
           split; [exact Hf|split; [exact Hfail|split; [rewrite <- app_assoc; exact Hq|]]].
           left. split; [|intros H _; exfalso; apply H; reflexivity].
           unfold keys in *. rewrite !fmap_app, Hk. cbn.
           rewrite (job_key_ok args x t Hj). reflexivity.
        -- exact I.
      * injection Hs as <-. split; [|split; [|split]].
        -- destruct Hc as [Hc1 Hc2]; split; simpl in *; [assumption|lia].
        -- exact Ht.
        -- exists done, (consumed ++ [x]). cbn.
           split; [exact Hf|split; [exact Hfail|split; [rewrite <- app_assoc; exact Hq|]]].
           right; left. exists consumed, x, e. auto.
        -- cbn. right; right; left. exists x, e. split; [|split; [exact Hj|reflexivity]].
           rewrite Hf, loaded_app, <- Hq.
           apply elem_of_app; left. apply elem_of_app; right. left.
  - (* the join loop *)
    destruct Hmode as [[Hk Himp]|[[c' [x [e [_ [_ [_ [Hp|Hp]]]]]]]|[_ [_ [e [_ Hp]]]]]];
      [|discriminate|discriminate|discriminate].
    destruct (Himp ltac:(discriminate) ltac:(discriminate)) as [-> ->].
    destruct Hph as [Hle Hpre]; cbn in Hle, Hpre.
    destruct (ts !! i) as [t|] eqn:Hi.
    + destruct (t_status t) as [[u|e]|] eqn:Hst; [| |discriminate].
      * injection Hs as <-. split; [|split; [|split]]; [exact Hc|exact Ht| |].
        -- exists done, consumed. cbn. split; [exact Hf|split; [exact Hfail|split; [exact Hq|]]].
           left; split; [exact Hk|auto].
        -- cbn. split; [apply lookup_lt_Some in Hi; lia|].
           intros j Hj. destruct (decide (j = i)) as [->|Hne].
           ++ exists t. destruct u. auto.
           ++ apply Hpre. lia.
      * injection Hs as <-. split; [|split; [|split]]; [exact Hc|exact Ht| |].
        -- exists done, consumed. cbn. split; [exact Hf|split; [exact Hfail|split; [exact Hq|]]].
           left; split; [exact Hk|auto].
        -- cbn. right; left. exists i, t, e. auto.
    + injection Hs as <-. split; [|split; [|split]]; [exact Hc|exact Ht| |].
      * exists done, consumed. cbn. split; [exact Hf|split; [exact Hfail|split; [exact Hq|]]].
        left; split; [exact Hk|auto].
      * cbn. left. split; [reflexivity|].
        apply lookup_ge_None in Hi. assert (i = length ts) as <- by lia. exact Hpre.
  - (* leaving the [with] block *)
    destruct (forallb task_done ts) eqn:Hall; [|discriminate].
    injection Hs as <-. split; [|split; [|split]]; [exact Hc|exact Ht| |].
    + exists done, consumed. cbn. split; [exact Hf|split; [exact Hfail|split; [exact Hq|]]].
      destruct Hmode as [[Hk Himp]|[[c' [x [e [Hc' [Hk [Hj [Hp|Hp]]]]]]]|[_ [_ [e [_ Hp]]]]]].
      * left; split; [exact Hk|]. intros _ _. apply Himp; discriminate.
      * right; left. exists c', x, e. injection Hp as ->. auto.
      * discriminate.
      * discriminate.
    + cbn. split; [exact Hph|exact Hall].
  - discriminate.
Qed.

Lemma keys_insert (ts : list Task) (i : nat) (t t' : Task) :
  ts !! i = Some t -> task_key t' = task_key t -> keys (<[i := t']> ts) = keys ts.
Proof.
  intros Hi Hk. unfold keys. rewrite list_fmap_insert, Hk.
  apply list_insert_id. rewrite list_lookup_fmap, Hi. reflexivity.
Qed.

Lemma outcome_ok_insert (ts : list Task) (r : result unit) (i : nat) (t t' : Task) :
  outcome_ok ts r -> ts !! i = Some t -> t_status t = None ->
  outcome_ok (<[i := t']> ts) r.
Proof.
  intros [[Hr Hp]|[[i0 [t0 [e [Hr [Hp [Hi0 Hs0]]]]]]|[Hloop|[e [Hm [Hr Hnil]]]]]] Hi Hn.
  - left. split; [exact Hr|]. rewrite length_insert. eapply prefix_ok_insert; eauto.
  - right; left. exists i0, t0, e. split; [exact Hr|split; [eapply prefix_ok_insert; eauto|]].
    split; [|exact Hs0].
    rewrite list_lookup_insert_ne; [exact Hi0|].
    intros ->. rewrite Hi in Hi0. inversion Hi0; subst. congruence.
  - right; right; left. exact Hloop.
  - exfalso. subst ts. rewrite lookup_nil in Hi. discriminate.
Qed.

Lemma worker_inv (i : nat) (s s' : St) :
  inv s -> Cli.worker_step image save_image i s = Some s' -> inv s'.
Proof.
  intros [Hc [Ht [Ho Hph]]] Hs.
  destruct s as [pend q cap failed ph ts disk]; unfold Cli.worker_step in Hs; cbn in *.
  destruct (ts !! i) as [t|] eqn:Hi; [|discriminate].
  destruct (t_status t) as [r0|] eqn:Hst; [discriminate|].
  injection Hs as <-.
  set (t' := mkTask (t_image t) (t_filename t) (t_meta t) (t_format t) (Some (save_of t))).
  set (disk' := match save_of t with Ok _ => disk ++ [written_of t] | Err _ => disk end).
  assert (Hkey : task_key t' = task_key t) by reflexivity.
  assert (Hsave : save_of t' = save_of t) by (apply save_of_key; exact Hkey).
  assert (Hsub : forall w, w ∈ disk -> w ∈ disk').
  { intros w Hw. unfold disk'. destruct (save_of t); [apply elem_of_app; left|]; exact Hw. }
  split; [|split; [|split]].
  - exact Hc.
  - intros j u Hu. cbn in Hu.
    destruct (decide (j = i)) as [->|Hne].
    + rewrite list_lookup_insert_eq in Hu by (apply lookup_lt_Some in Hi; exact Hi).
      injection Hu as <-. split.
      * right. cbn. rewrite Hsave. reflexivity.
      * cbn. intros Hok. injection Hok as Hok. cbn. unfold disk'. rewrite Hok.
        apply elem_of_app; right. left.
    + rewrite list_lookup_insert_ne in Hu by congruence.
      destruct (Ht j u Hu) as [H1 H2]. split; [exact H1|].
      intros H. apply Hsub, H2, H.
  - destruct Ho as [done [consumed [Hf [Hfail [Hq Hmode]]]]].
    exists done, consumed. cbn in *.
    split; [exact Hf|split; [exact Hfail|split; [exact Hq|]]].
    assert (Hne : ts <> []) by (intros ->; rewrite lookup_nil in Hi; discriminate).
    destruct Hmode as [HA|[HB|[_ [Hnil _]]]]; [| |contradiction].
    + left. erewrite keys_insert; [exact HA|exact Hi|reflexivity].
    + right; left. erewrite keys_insert; [exact HB|exact Hi|reflexivity].
  - destruct ph as [| |k|r|r]; cbn in *.
    + exfalso. subst ts. rewrite lookup_nil in Hi. discriminate.
    + exact I.
    + destruct Hph as [Hle Hpre]. rewrite length_insert.
      split; [exact Hle|]. eapply prefix_ok_insert; eauto.
    + eapply outcome_ok_insert; eauto.
    + exfalso. destruct Hph as [_ Hall].
      apply (proj1 (forallb_forall _ _)) with (x := t) in Hall.
      * unfold task_done in Hall. rewrite Hst in Hall. discriminate.
      * apply list_elem_of_In, list_elem_of_lookup. exists i. exact Hi.
Qed.

Lemma step_inv (c : Choice) (s s' : St) :
  inv s -> step args c s = Some s' -> inv s'.
Proof.
  destruct c as [| |i]; unfold Cli.step.
  - apply producer_inv.
  - apply consumer_inv.
  - apply worker_inv.
Qed.

Lemma run_inv (sched : list Choice) (s s' : St) :
  inv s -> run args sched s = Some s' -> inv s'.
Proof.
  revert s; induction sched as [|c sched IH]; intros s Hs Hrun; cbn in Hrun.
  - injection Hrun as <-. exact Hs.
  - destruct (step args c s) as [s1|] eqn:E; [|discriminate].
    exact (IH s1 (step_inv c s s1 Hs E) Hrun).
Qed.

Lemma reachable_inv (sched : list Choice) (s : St) :
  run args sched (convert_files_init files) = Some s -> inv s.
Proof. apply run_inv, inv_init. Qed.

End Invariant.

Lemma first_error_all_ok (ts : list Task) :
  prefix_ok ts (length ts) -> first_error ts = Ok tt.
Proof.
  induction ts as [|t ts IH]; intros Hp; [reflexivity|].
  destruct (Hp 0%nat ltac:(cbn; lia)) as [u [Hu Hs]]. cbn in Hu. injection Hu as <-.
  cbn. rewrite Hs. apply IH.
  intros j Hj. destruct (Hp (S j) ltac:(cbn; lia)) as [u [Hu Hs']]. exists u; auto.
Qed.

Lemma first_error_at (ts : list Task) (i : nat) (t : Task) (e : Exc) :
  prefix_ok ts i -> ts !! i = Some t -> t_status t = Some (Err e) -> first_error ts = Err e.
Proof.
  revert i; induction ts as [|t0 ts IH]; intros i Hp Hi Hs; [discriminate|].
  destruct i as [|i].
  - cbn in Hi. injection Hi as ->. cbn. rewrite Hs. reflexivity.
  - destruct (Hp 0%nat ltac:(lia)) as [u [Hu Hu']]. cbn in Hu. injection Hu as <-.
    cbn. rewrite Hu'. apply (IH i); [|exact Hi|exact Hs].
    intros j Hj. destruct (Hp (S j) ltac:(lia)) as [u [Hu Hs']]. exists u; auto.
Qed.

Lemma outcome_first_error (args : Args) (files : list string) (ts : list Task) (r : result unit) :
  outcome_ok args files ts r ->
  r = first_error ts
  \/ (exists x e, x ∈ loaded files /\ convert_job args x = Err e /\ r = Err e)
  \/ (exists e, makedirs (args_output args) = Err e /\ r = Err e /\ ts = []).
Proof.
  intros [[-> Hp]|[[i [t [e [-> [Hp [Hi Hs]]]]]]|[Hloop|Hmk]]].
  - left. symmetry. apply first_error_all_ok, Hp.
  - left. symmetry. eapply first_error_at; eauto.
  - right; left. exact Hloop.
  - right; right. exact Hmk.
Qed.

Lemma elem_of_loaded (files : list string) (f : string) (x : image * pydict) :
  f ∈ files -> load_image f = Ok x -> x ∈ loaded files.
Proof.
  intros Hf Hl. unfold Cli.loaded. apply list_elem_of_omap.
  exists f. split; [exact Hf|]. rewrite Hl. reflexivity.
Qed.

Lemma loaded_elem (files : list string) (x : image * pydict) :
  x ∈ loaded files -> exists f, f ∈ files /\ load_image f = Ok x.
Proof.
  unfold Cli.loaded. intros Hx. apply list_elem_of_omap in Hx as [f [Hf Hl]].
  exists f. split; [exact Hf|]. destruct (load_image f); [congruence|discriminate].
Qed.

Lemma convert_job_meta (args : Args) (im : image) (meta : pydict) (t : Task) :
  convert_job args (im, meta) = Ok t -> t_meta t = fst (update_meta args meta).
Proof.
  unfold Cli.convert_job.
  destruct (to_tensor im) as [rgb alpha].
  destruct (convert rgb alpha) as [rgb' alpha'].
  destruct (meta_filename meta) as [fname|e]; [|discriminate].
  destruct (update_meta args meta) as [meta' depth].
  intros H; inversion H; reflexivity.
Qed.

(** A submitted future comes from a decoded image of [files]. *)
Lemma task_origin (args : Args) (files : list string) (sched : list Choice) (s : St) (t : Task) :
  run args sched (convert_files_init files) = Some s -> t ∈ s_tasks s ->
  exists x t0, x ∈ loaded files /\ convert_job args x = Ok t0 /\ task_key t0 = task_key t.
Proof.
  intros Hrun Ht.
  destruct (reachable_inv args files sched s Hrun) as [_ [_ [Ho _]]].
  destruct Ho as [done [consumed [Hf [_ [Hq Hmode]]]]].
  assert (Hsub : forall y, y ∈ consumed -> y ∈ loaded files).
  { intros y Hy. rewrite Hf, loaded_app, <- Hq. apply elem_of_app; left.
    apply elem_of_app; left. exact Hy. }
  assert (Hk : exists c, (forall y, y ∈ c -> y ∈ loaded files) /\ keys (s_tasks s) = job_key args <$> c).
  { destruct Hmode as [[Hk _]|[[c' [x [e [-> [Hk _]]]]]|[_ [Hnil _]]]].
    - exists consumed. auto.
    - exists c'. split; [|exact Hk]. intros y Hy. apply Hsub, elem_of_app. left; exact Hy.
    - exists []. split; [intros y Hy; apply elem_of_nil in Hy; contradiction|].
      rewrite Hnil. reflexivity. }
  destruct Hk as [c [Hc Hk]].
  apply list_elem_of_lookup in Ht as [j Hj].
  assert (Hkj : keys (s_tasks s) !! j = Some (Some (task_key t))).
  { unfold keys. rewrite list_lookup_fmap, Hj. reflexivity. }
  rewrite Hk, list_lookup_fmap in Hkj.
  destruct (c !! j) as [x|] eqn:Hcj; [|discriminate]. cbn in Hkj. injection Hkj as Hkj.
  unfold Cli.job_key in Hkj.
  destruct (convert_job args x) as [t0|e] eqn:Hjx; [|discriminate].
  assert (Hkt : task_key t0 = task_key t) by congruence.
  exists x, t0. split; [apply Hc, list_elem_of_lookup; exists j; exact Hcj|auto].
Qed.

Lemma tasks_done_saved (args : Args) (files : list string) (sched : list Choice) (s : St) :
  run args sched (convert_files_init files) = Some s ->
  forallb task_done (s_tasks s) = true ->
  forall t, t ∈ s_tasks s -> t_status t = Some (save_of t).
Proof.
  intros Hrun Hall t Ht.
  destruct (reachable_inv args files sched s Hrun) as [_ [Htasks _]].
  apply list_elem_of_lookup in Ht as [i Hi].
  destruct (Htasks i t Hi) as [[Hn|Hs] _]; [|exact Hs].
  apply forallb_forall with (x := t) in Hall.
  - unfold task_done in Hall. rewrite Hn in Hall. discriminate.
  - apply list_elem_of_In, list_elem_of_lookup. exists i; exact Hi.
Qed.

Lemma done_phase_inv (args : Args) (files : list string) (sched : list Choice) (s : St) (r : result unit) :
  run args sched (convert_files_init files) = Some s -> s_phase s = PDone r ->
  outcome_ok args files (s_tasks s) r /\ forallb task_done (s_tasks s) = true.
Proof.
  intros Hrun Hd.
  destruct (reachable_inv args files sched s Hrun) as [_ [_ [_ Hph]]].
  unfold phase_inv in Hph. rewrite Hd in Hph. exact Hph.
Qed.

(** The final state of a run where [os.makedirs] returned and the loop
    body raised for no decoded image. *)
Lemma done_no_loop_error (args : Args) (files : list string) (sched : list Choice) (s : St) (r : result unit) :
  run args sched (convert_files_init files) = Some s -> s_phase s = PDone r ->
  makedirs (args_output args) = Ok tt ->
  (forall x, x ∈ loaded files -> exists t, convert_job args x = Ok t) ->
  s_failed s = decode_failures files
  /\ keys (s_tasks s) = job_key args <$> loaded files
  /\ r = first_error (s_tasks s).
Proof.
  intros Hrun Hd Hmk Hjobs.
  destruct (reachable_inv args files sched s Hrun) as [_ [_ [Hord _]]].
  destruct (done_phase_inv args files sched s r Hrun Hd) as [Hout _].
  destruct Hord as [done [consumed [Hf [Hfail [Hq Hmode]]]]].
  assert (Hsub : forall y, y ∈ consumed -> y ∈ loaded files).
  { intros y Hy. rewrite Hf, loaded_app, <- Hq. apply elem_of_app; left.
    apply elem_of_app; left. exact Hy. }
  destruct Hmode as [[Hk Hnl]|[[c' [x [e [Hc [_ [Hx _]]]]]]|[_ [_ [e [Hm _]]]]]].
  - destruct (Hnl ltac:(rewrite Hd; discriminate) ltac:(rewrite Hd; discriminate)) as [Hp Hq0].
    rewrite Hp, app_nil_r in Hf. rewrite Hq0, app_nil_r in Hq. subst done consumed.
    split; [exact Hfail|split; [exact Hk|]].
    destruct (outcome_first_error args files (s_tasks s) r Hout)
      as [Hr|[[y [e [Hy [Hye _]]]]|[e [Hm _]]]]; [exact Hr| |congruence].
    destruct (Hjobs y Hy) as [t Ht]. congruence.
  - exfalso. destruct (Hjobs x) as [t Ht]; [|congruence].
    apply Hsub. rewrite Hc. apply elem_of_app; right. apply list_elem_of_singleton; reflexivity.
  - congruence.
Qed.

(** [C8] [convert_files] reads through an [ImageLoader] whose queue has
    capacity [max_queue_size = 128]: in every reachable state of a run the
    capacity is 128 and the queue holds at most 128 decoded images, and the
    producer cannot push the next decoded image while the queue is full. *)
Theorem convert_files_queue_bounded (args : Args) (files : list string)
    (sched : list Choice) (s : St) :
  run args sched (convert_files_init files) = Some s ->
  s_cap s = 128%nat
  /\ (length (s_queue s) <= s_cap s)%nat
  /\ (forall f rest x, s_pending s = f :: rest -> load_image f = Ok x ->
        length (s_queue s) = s_cap s -> step args Producer s = None).
Proof.
  intros Hrun.
  destruct (reachable_inv args files sched s Hrun) as [[Hcap Hlen] _].
  split; [exact Hcap|split; [exact Hlen|]].
  intros f rest x Hp Hl Hfull. cbn. unfold Cli.producer_step.
  rewrite Hp, Hl, Hfull, Nat.ltb_irrefl. reflexivity.
Qed.

(** [C1] When [convert_files] has finished (returned or raised), every
    submitted future has completed and holds what its [IL.save_image]
    returned; the outcome is the error of the first failing future in
    submission order ([Ok] when none fails), unless the loop body raised for
    a decoded image, in which case that error is the outcome, or
    [os.makedirs(args.output, exist_ok=True)] raised, in which case its
    error is the outcome and no future was submitted.  Only one error is
    surfaced. *)
Theorem convert_files_waits_all_futures (args : Args) (files : list string)
    (sched : list Choice) (s : St) (r : result unit) :
  run args sched (convert_files_init files) = Some s ->
  s_phase s = PDone r ->
  forallb task_done (s_tasks s) = true
  /\ (forall t, t ∈ s_tasks s -> t_status t = Some (save_of t))
  /\ (r = first_error (s_tasks s)
      \/ (exists x e, x ∈ loaded files /\ convert_job args x = Err e /\ r = Err e)
      \/ (exists e, makedirs (args_output args) = Err e /\ r = Err e /\ s_tasks s = [])).
Proof.
  intros Hrun Hd.
  destruct (done_phase_inv args files sched s r Hrun Hd) as [Hout Hall].
  split; [exact Hall|split].
  - exact (tasks_done_saved args files sched s Hrun Hall).
  - exact (outcome_first_error args files (s_tasks s) r Hout).
Qed.

(** [C2] Per-file independence.  In batch mode, when
    [os.makedirs(args.output, exist_ok=True)] returns (the output directory
    exists or is created) and the loop body raises for no decoded image, a
    finished [convert_files] has written the output of every file that
    decodes and whose [IL.save_image] succeeds, whatever happens to the other
    files; the loader has recorded exactly the decode failures, in file
    order; every future has run; and the outcome is the first failing save,
    if any.  In single-file mode a load error is the
    outcome of [convert_file], and otherwise its outcome is what
    [IL.save_image] returns. *)
Theorem convert_files_per_file_independence (args : Args) (files : list string)
    (sched : list Choice) (s : St) (r : result unit) :
  run args sched (convert_files_init files) = Some s ->
  s_phase s = PDone r ->
  makedirs (args_output args) = Ok tt ->
  (forall x, x ∈ loaded files -> exists t, convert_job args x = Ok t) ->
  (forall f x t, f ∈ files -> load_image f = Ok x -> convert_job args x = Ok t ->
     save_of t = Ok tt -> written_of t ∈ s_disk s)
  /\ s_failed s = decode_failures files
  /\ (forall t, t ∈ s_tasks s -> t_status t = Some (save_of t))
  /\ r = first_error (s_tasks s)
  /\ (output_fmt args ∈ known_formats ->
        (forall e, load_image (args_input args) = Err e ->
           convert_file args = (Err e, [ELoad (args_input args)]))
        /\ (forall x, load_image (args_input args) = Ok x ->
           exists im meta, fst (convert_file args)
                           = save_image im (args_output args) meta (output_fmt args))).
Proof.
  intros Hrun Hd Hmk Hjobs.
  destruct (done_no_loop_error args files sched s r Hrun Hd Hmk Hjobs) as [Hfail [Hk Hr]].
  destruct (done_phase_inv args files sched s r Hrun Hd) as [_ Hall].
  pose proof (tasks_done_saved args files sched s Hrun Hall) as Hsaved.
  destruct (reachable_inv args files sched s Hrun) as [_ [Htasks _]].
  split; [|split; [exact Hfail|split; [exact Hsaved|split; [exact Hr|]]]].
  - intros f x t Hf Hl Hj Hsave.
    pose proof (elem_of_loaded files f x Hf Hl) as Hx.
    apply list_elem_of_lookup in Hx as [j Hj'].
    assert (Hkj : keys (s_tasks s) !! j = Some (Some (task_key t))).
    { rewrite Hk, list_lookup_fmap, Hj'. cbn. rewrite (job_key_ok args x t Hj). reflexivity. }
    unfold keys in Hkj. rewrite list_lookup_fmap in Hkj.
    destruct (s_tasks s !! j) as [t'|] eqn:Ht'; [|discriminate]. cbn in Hkj.
    assert (Hkt : task_key t' = task_key t) by congruence.
    destruct (Htasks j t' Ht') as [_ Hdisk].
    assert (Hw : written_of t' = written_of t) by exact Hkt.
    rewrite <- Hw. apply Hdisk.
    rewrite (Hsaved t') by (apply list_elem_of_lookup; exists j; exact Ht').
    rewrite (save_of_key t' t Hkt), Hsave. reflexivity.
  - intros Hfmt. unfold Cli.convert_file.
    rewrite (bool_decide_eq_true_2 _ Hfmt). cbn.
    split.
    + intros e He. rewrite He. reflexivity.
    + intros [im meta] Hl. rewrite Hl.
      destruct (to_tensor im) as [rgb alpha].
      destruct (convert rgb alpha) as [rgb' alpha'].
      destruct (update_meta args meta) as [meta' depth].
      eexists _, _. reflexivity.
Qed.

(** [C3] The metadata returned by [IL.load_image] reaches [IL.save_image]
    with two edits: ["depth"] is set to [args.depth] when it is given, and
    ["grayscale"] is set to [True] when [args.grayscale] is; every other key
    is unchanged, and with neither option the metadata is passed as loaded.
    [convert_file] saves the edited metadata of its input, and every task
    [convert_files] submits carries the edited metadata of its image. *)
Theorem metadata_edits_only (args : Args) :
  (forall meta k, k <> "depth" -> k <> "grayscale" ->
     fst (update_meta args meta) !! k = meta !! k)
  /\ (forall meta, fst (update_meta args meta) !! "depth"
        = match args_depth args with Some d => Some (PInt d) | None => meta !! "depth" end)
  /\ (forall meta, fst (update_meta args meta) !! "grayscale"
        = if args_grayscale args then Some (PBool true) else meta !! "grayscale")
  /\ (args_depth args = None -> args_grayscale args = false ->
        forall meta, fst (update_meta args meta) = meta)
  /\ (forall im meta, output_fmt args ∈ known_formats ->
        load_image (args_input args) = Ok (im, meta) ->
        snd (convert_file args)
        = [ELoad (args_input args); EConvert;
           ESave (args_output args) (fst (update_meta args meta)) (output_fmt args)])
  /\ (forall im meta t, convert_job args (im, meta) = Ok t ->
        t_meta t = fst (update_meta args meta)).
Proof.
  split; [|split; [|split; [|split; [|split]]]].
  - intros meta k Hd Hg. unfold update_meta. cbn.
    destruct (args_grayscale args); destruct (args_depth args);
      cbn; repeat rewrite lookup_insert_ne by congruence; reflexivity.
  - intros meta. unfold update_meta. cbn.
    destruct (args_grayscale args); destruct (args_depth args); cbn;
      repeat rewrite lookup_insert_ne by discriminate;
      try rewrite lookup_insert_eq; reflexivity.
  - intros meta. unfold update_meta. cbn.
    destruct (args_grayscale args); destruct (args_depth args); cbn;
      try rewrite lookup_insert_eq;
      repeat rewrite lookup_insert_ne by discriminate; reflexivity.
  - intros Hd Hg meta. unfold update_meta. rewrite Hd, Hg. reflexivity.
  - intros im meta Hfmt Hl. unfold Cli.convert_file.
    rewrite (bool_decide_eq_true_2 _ Hfmt). cbn. rewrite Hl.
    destruct (to_tensor im) as [rgb alpha].
    destruct (convert rgb alpha) as [rgb' alpha'].
    destruct (update_meta args meta) as [meta' depth]. reflexivity.
  - intros im meta t Ht. exact (convert_job_meta args im meta t Ht).
Qed.

(** [C7] [convert_file] raises [ValueError] for the output extension, before
    loading, converting or writing anything, exactly when the lowercased
    extension of [args.output] without its dot is not one of [png], [webp],
    [jpeg], [jpg]; otherwise its first effect is loading the input. *)
Theorem convert_file_rejects_unknown_ext (args : Args) :
  (convert_file args
     = (Err (ValueError ("Unable to recognize image extension: " ++ output_fmt args)), [])
   <-> output_fmt args ∉ known_formats)
  /\ (output_fmt args ∈ known_formats ->
      exists evs, snd (convert_file args) = ELoad (args_input args) :: evs).
Proof.
  unfold Cli.convert_file.
  destruct (decide (output_fmt args ∈ known_formats)) as [Hin|Hout].
  - rewrite (bool_decide_eq_true_2 _ Hin). cbn.
    split.
    + split; [|intros H; contradiction].
      destruct (load_image (args_input args)) as [[im meta]|e].
      * destruct (to_tensor im) as [rgb alpha].
        destruct (convert rgb alpha) as [rgb' alpha'].
        destruct (update_meta args meta) as [meta' depth]. discriminate.
      * discriminate.
    + intros _. destruct (load_image (args_input args)) as [[im meta]|e].
      * destruct (to_tensor im) as [rgb alpha].
        destruct (convert rgb alpha) as [rgb' alpha'].
        destruct (update_meta args meta) as [meta' depth]. eexists; reflexivity.
      * eexists; reflexivity.
  - rewrite (bool_decide_eq_false_2 _ Hout). cbn.
    split; [split; [intros _; exact Hout|reflexivity]|intros H; contradiction].
Qed.

End Facts.
End PipelineFacts.


(* ------------------------------------------------------------------ *)
(** ** [load_files] and [main] *)

Module MainFacts.

Lemma load_files_rows_nonempty (rows : list (list string)) :
  Forall (fun row => row <> []) rows ->
  load_files_rows rows = Ok (map (hd String.EmptyString) rows).
Proof.
  induction 1 as [|row rows Hrow _ IH]; [reflexivity|].
  destruct row as [|first rest]; [contradiction|]. cbn. rewrite IH. reflexivity.
Qed.



End MainFacts.


(* ------------------------------------------------------------------ *)
(** ** Strings and paths, the output format, [register_kwargs], the
    command line, [csv.reader] and [downscaling_test] *)

Module StrFacts.

Lemma list_ascii_of_string_app (a b : string) :
  String.list_ascii_of_string (a ++ b) = String.list_ascii_of_string a ++ String.list_ascii_of_string b.
Proof. induction a as [|c a IH]; [reflexivity|]. exact (f_equal _ IH). Qed.

Lemma string_of_list_ascii_app (l1 l2 : list ascii) :
  String.string_of_list_ascii (l1 ++ l2)
  = (String.string_of_list_ascii l1 ++ String.string_of_list_ascii l2)%string.
Proof. induction l1 as [|c l1 IH]; [reflexivity|]. exact (f_equal _ IH). Qed.

Lemma string_app_inv_l (a b1 b2 : string) : (a ++ b1 = a ++ b2)%string -> b1 = b2.
Proof. induction a as [|c a IH]; [done|]. cbn [String.append]. intros H. injection H. exact IH. Qed.

Lemma string_app_empty_r (a : string) : (a ++ String.EmptyString)%string = a.
Proof. induction a as [|c a IH]; [reflexivity|]. exact (f_equal _ IH). Qed.

Lemma rfind_from_spec (c : ascii) (l : list ascii) (i : nat) (acc : Z) :
  (PyStr.rfind_from c l i acc = acc /\ c ∉ l)
  \/ (exists j, PyStr.rfind_from c l i acc = Z.of_nat (i + j) /\ l !! j = Some c
        /\ forall k, (j < k)%nat -> l !! k <> Some c).
Proof.
  revert i acc; induction l as [|x l IH]; intros i acc; cbn.
  - left. split; [reflexivity|apply not_elem_of_nil].
  - destruct (IH (S i) (if Ascii.eqb x c then Z.of_nat i else acc))
      as [[Hr Hn]|[j [Hr [Hj Hk]]]].
    + rewrite Hr. destruct (Ascii.eqb_spec x c) as [->|Hxc].
      * right. exists 0%nat. split; [f_equal; lia|split; [reflexivity|]].
        intros [|k] Hk; [lia|]. cbn. intros Hl. apply Hn.
        apply list_elem_of_lookup. exists k; exact Hl.
      * left. split; [reflexivity|]. apply not_elem_of_cons; split; [congruence|exact Hn].
    + right. exists (S j). split; [rewrite Hr; f_equal; lia|split; [exact Hj|]].
      intros [|k] Hlt; [lia|]. cbn. apply Hk. lia.
Qed.

Lemma rfind_spec (c : ascii) (l : list ascii) :
  (PyStr.rfind c l = -1 /\ c ∉ l)
  \/ (exists j, PyStr.rfind c l = Z.of_nat j /\ l !! j = Some c
        /\ forall k, (j < k)%nat -> l !! k <> Some c).
Proof.
  unfold PyStr.rfind. destruct (rfind_from_spec c l 0 (-1)) as [H|[j H]]; [left; exact H|].
  right. exists j. exact H.
Qed.

Lemma not_elem_of_drop_after (c : ascii) (l : list ascii) (j : nat) :
  (forall k, (j <= k)%nat -> l !! k <> Some c) -> c ∉ drop j l.
Proof.
  intros Hk Hin. apply list_elem_of_lookup in Hin as [k Hl].
  rewrite lookup_drop in Hl. apply (Hk (j + k)%nat); [lia|exact Hl].
Qed.

End StrFacts.

Module PathFacts.
Import StrFacts.

(** [X3] [path.splitext] splits a path into a root and an extension
    whose concatenation is the path; the extension is empty or a dot
    followed by characters that are neither a dot nor a slash. *)
Theorem splitext_concat (p : string) :
  let '(root, ext) := PyStr.splitext p in
  (root ++ ext)%string = p
  /\ (ext = String.EmptyString
      \/ exists rest, ext = String.String "." rest
           /\ ("."%char ∉ String.list_ascii_of_string rest)
           /\ ("/"%char ∉ String.list_ascii_of_string rest)).
Proof.
  unfold PyStr.splitext. cbv zeta.
  set (l := String.list_ascii_of_string p).
  assert (Hp : String.string_of_list_ascii l = p) by apply String.string_of_list_ascii_of_string.
  destruct (Z.ltb_spec (PyStr.rfind "/" l) (PyStr.rfind "." l)) as [Hlt|Hge];
    [|split; [apply string_app_empty_r|left; reflexivity]].
  destruct (existsb _ _); [|split; [apply string_app_empty_r|left; reflexivity]].
  destruct (rfind_spec "." l) as [[Hd Hnd]|[jd [Hd [Hjd Had]]]].
  { exfalso. destruct (rfind_spec "/" l) as [[Hs _]|[js [Hs _]]]; lia. }
  assert (Hns : forall k, (jd < k)%nat -> l !! k <> Some "/"%char).
  { destruct (rfind_spec "/" l) as [[Hs Hns]|[js [Hs [Hjs Has]]]].
    - intros k _ Hk. apply Hns. apply list_elem_of_lookup. exists k. exact Hk.
    - intros k Hk. apply Has. lia. }
  rewrite Hd, Nat2Z.id. cbn [fst snd].
  split; [rewrite <- string_of_list_ascii_app, take_drop; exact Hp|right].
  rewrite (drop_S _ _ _ Hjd).
  exists (String.string_of_list_ascii (drop (S jd) l)).
  rewrite String.list_ascii_of_string_of_list_ascii.
  split; [reflexivity|split]; apply not_elem_of_drop_after; intros k Hk.
  - apply Had. lia.
  - apply Hns. lia.
Qed.

End PathFacts.

Module FmtFacts.
Import StrFacts.

Lemma lower_char_eqb_dot (c : ascii) :
  Ascii.eqb (PyStr.lower_char c) "."%char = Ascii.eqb c "."%char.
Proof. destruct c as [[] [] [] [] [] [] [] []]; reflexivity. Qed.

Lemma lower_char_eqb_slash (c : ascii) :
  Ascii.eqb (PyStr.lower_char c) "/"%char = Ascii.eqb c "/"%char.
Proof. destruct c as [[] [] [] [] [] [] [] []]; reflexivity. Qed.

Lemma rfind_from_map (f : ascii -> ascii) (c : ascii) (l : list ascii) (i : nat) (acc : Z) :
  (forall x, Ascii.eqb (f x) c = Ascii.eqb x c) ->
  PyStr.rfind_from c (map f l) i acc = PyStr.rfind_from c l i acc.
Proof.
  intros Hf. revert i acc; induction l as [|x l IH]; intros i acc; [reflexivity|].
  cbn. rewrite Hf. apply IH.
Qed.

Lemma existsb_non_dot_lower (l : list ascii) :
  existsb (fun c => negb (Ascii.eqb c "."%char)) (map PyStr.lower_char l)
  = existsb (fun c => negb (Ascii.eqb c "."%char)) l.
Proof. induction l as [|x l IH]; [reflexivity|]. cbn. rewrite IH, lower_char_eqb_dot. reflexivity. Qed.

Lemma splitext_lower (p : string) :
  snd (PyStr.splitext (PyStr.lower p)) = PyStr.lower (snd (PyStr.splitext p)).
Proof.
  unfold PyStr.splitext, PyStr.lower. cbv zeta.
  rewrite String.list_ascii_of_string_of_list_ascii.
  set (l := String.list_ascii_of_string p).
  unfold PyStr.rfind.
  rewrite !(rfind_from_map _ _ _ _ _ lower_char_eqb_slash), !(rfind_from_map _ _ _ _ _ lower_char_eqb_dot).
  destruct (_ <? _); [|reflexivity].
  rewrite firstn_map, skipn_map, existsb_non_dot_lower.
  destruct (existsb _ _); [|reflexivity].
  cbn [snd]. rewrite String.list_ascii_of_string_of_list_ascii, skipn_map. reflexivity.
Qed.

(** [X4] The format [convert_file] checks and passes to [IL.save_image]
    depends only on the lowercased output path: two output paths equal up
    to ASCII case give the same [fmt]. *)
Theorem output_fmt_case_insensitive (a1 a2 : Args) :
  PyStr.lower (args_output a1) = PyStr.lower (args_output a2) ->
  output_fmt a1 = output_fmt a2.
Proof.
  intros H. unfold output_fmt. rewrite <- !splitext_lower, H. reflexivity.
Qed.

Lemma output_fmt_case_insensitive_witness :
  PyStr.lower "Out/Photo.JPG" = PyStr.lower "out/photo.jpg"
  /\ output_fmt (mkArgs "in" "Out/Photo.JPG" "png" None false)
     = output_fmt (mkArgs "in" "out/photo.jpg" "png" None false).
Proof.
  assert (H : PyStr.lower "Out/Photo.JPG" = PyStr.lower "out/photo.jpg") by (vm_compute; reflexivity).
  split; [exact H|].
  exact (output_fmt_case_insensitive (mkArgs "in" "Out/Photo.JPG" "png" None false)
           (mkArgs "in" "out/photo.jpg" "png" None false) H).
Defined.

End FmtFacts.

Module ModelExtraFacts.
Import NunifModel NunifModelFacts.

Lemma model_eq (m1 m2 : Model) :
  kwargs m1 = kwargs m2 -> updated_at m1 = updated_at m2 -> m1 = m2.
Proof. destruct m1, m2; cbn; intros -> ->; reflexivity. Qed.

(** [X1] After [register_kwargs(kwargs)] on any model, a name other than
    ["self"] maps to its value in [kwargs] when it is given there and keeps
    its previous value otherwise; ["self"] keeps its previous value; nothing
    is removed and [updated_at] is unchanged. *)
Theorem register_kwargs_lookup (m : Model) (kw : pydict) (k : string) :
  get_kwargs (register_kwargs m kw) !! k
    = (if bool_decide (k = "self"%string) then get_kwargs m !! k
       else match kw !! k with Some v => Some v | None => get_kwargs m !! k end)
  /\ updated_at (register_kwargs m kw) = updated_at m.
Proof.
  destruct (register_kwargs_spec m kw) as [Hk Hu]. split; [|exact Hu].
  unfold get_kwargs. rewrite Hk, lookup_union, map_lookup_filter.
  destruct (decide (k = "self"%string)) as [->|Hs].
  - rewrite bool_decide_true by reflexivity.
    destruct (kw !! "self"%string); cbn; [|by destruct (kwargs m !! "self"%string)].
    rewrite option_guard_False by (unfold not_self; cbn; tauto).
    by destruct (kwargs m !! "self"%string).
  - rewrite bool_decide_false by exact Hs.
    destruct (kw !! k) as [v|]; cbn; [|by destruct (kwargs m !! k)].
    rewrite option_guard_True by exact Hs.
    by destruct (kwargs m !! k).
Qed.

(** [X2] Two [register_kwargs] calls act as one call with the merged
    mapping, the later values winning; registering the same mapping twice
    is the same as registering it once. *)
Theorem register_kwargs_compose (m : Model) (kw1 kw2 : pydict) :
  register_kwargs (register_kwargs m kw1) kw2 = register_kwargs m (kw2 ∪ kw1)
  /\ register_kwargs (register_kwargs m kw1) kw1 = register_kwargs m kw1.
Proof.
  destruct (register_kwargs_spec m kw1) as [Hk1 Hu1].
  destruct (register_kwargs_spec (register_kwargs m kw1) kw2) as [Hk2 Hu2].
  destruct (register_kwargs_spec (register_kwargs m kw1) kw1) as [Hk3 Hu3].
  destruct (register_kwargs_spec m (kw2 ∪ kw1)) as [Hk4 Hu4].
  split; apply model_eq; try congruence.
  - rewrite Hk2, Hk4, Hk1, filter_not_self_union. by rewrite (assoc_L (∪)).
  - rewrite Hk3, Hk1. by rewrite (assoc_L (∪)), (idemp_L (∪)).
Qed.

End ModelExtraFacts.

Module MethodFacts.

(** [X7] The typo alias of [__main__] maps every [--method] choice to one
    of [scale4x], [noise_scale4x], [scale], [noise], [noise_scale]; it never
    yields [scale2x] or [noise_scale2x]; and applying it twice is applying
    it once. *)
Theorem alias_method_spec (m : string) :
  (m ∈ method_choices ->
     alias_method m ∈ ["scale4x"; "noise_scale4x"; "scale"; "noise"; "noise_scale"]%string)
  /\ (alias_method m ∉ ["scale2x"; "noise_scale2x"]%string)
  /\ alias_method (alias_method m) = alias_method m.
Proof.
  assert (Hn : alias_method m ∉ ["scale2x"; "noise_scale2x"]%string).
  { unfold alias_method.
    destruct (String.eqb_spec m "scale2x"); [rewrite not_elem_of_cons; split; [discriminate|]; rewrite not_elem_of_cons; split; [discriminate|apply not_elem_of_nil]|].
    destruct (String.eqb_spec m "noise_scale2x"); [rewrite not_elem_of_cons; split; [discriminate|]; rewrite not_elem_of_cons; split; [discriminate|apply not_elem_of_nil]|].
    rewrite not_elem_of_cons; split; [exact n|]; rewrite not_elem_of_cons; split; [exact n0|apply not_elem_of_nil]. }
  split; [|split; [exact Hn|]].
  - unfold method_choices. intros Hm.
    repeat (apply elem_of_cons in Hm as [->|Hm]; [vm_compute; set_solver|]).
    apply elem_of_nil in Hm. contradiction.
  - rewrite not_elem_of_cons, not_elem_of_cons in Hn. destruct Hn as [H1 [H2 _]].
    unfold alias_method at 1.
    destruct (String.eqb_spec (alias_method m) "scale2x"); [contradiction|].
    destruct (String.eqb_spec (alias_method m) "noise_scale2x"); [contradiction|].
    reflexivity.
Qed.

End MethodFacts.

Module CsvFacts.
Import Csv.

(** A character a field can hold without quoting: not the delimiter,
    the quote character, CR or LF. *)
Definition plain_char (c : ascii) : bool :=
  negb (Ascii.eqb c ","%char || Ascii.eqb c "034"%char || is_crlf c).

(** A field of plain characters within [csv.field_size_limit()]. *)
Definition plain_field (f : string) : bool :=
  forallb plain_char (String.list_ascii_of_string f)
  && (Z.of_nat (String.length f) <=? field_limit)%Z.

(** The fields of a row joined by commas. *)
Fixpoint join_fields (row : list string) : list ascii :=
  match row with
  | [] => []
  | [f] => String.list_ascii_of_string f
  | f :: rest => String.list_ascii_of_string f ++ ","%char :: join_fields rest
  end.

(** A line of the list file: the joined fields and LF. *)
Definition row_line (row : list string) : list ascii := join_fields row ++ ["010"%char].

(** The text of a list file made of the lines of [rows]. *)
Definition rows_text (rows : list (list string)) : string :=
  String.string_of_list_ascii (concat (map row_line rows)).

(** A row made of plain fields whose line is not empty. *)
Definition writable_row (row : list string) : bool :=
  forallb plain_field row && bool_decide (join_fields row <> []).

Lemma plain_char_spec (c : ascii) :
  plain_char c = true ->
  Ascii.eqb c ","%char = false /\ Ascii.eqb c "034"%char = false /\ is_crlf c = false.
Proof.
  unfold plain_char. rewrite negb_true_iff, !orb_false_iff. tauto.
Qed.

Lemma length_list_ascii_of_string (f : string) :
  length (String.list_ascii_of_string f) = String.length f.
Proof. induction f as [|c f IH]; [reflexivity|]. cbn. rewrite IH. reflexivity. Qed.

Lemma plain_field_spec (f : string) :
  plain_field f = true ->
  forallb plain_char (String.list_ascii_of_string f) = true
  /\ (Z.of_nat (length (String.list_ascii_of_string f)) <= field_limit)%Z.
Proof.
  unfold plain_field. rewrite andb_true_iff, Z.leb_le, length_list_ascii_of_string. tauto.
Qed.

(** [parse_add_char] below the limit. *)
Lemma add_char_ok (p : Parser) (st : PState) (c : ascii) :
  (Z.of_nat (length (p_field p)) < field_limit)%Z ->
  add_char p st c = Ok (mkParser st (p_field p ++ [c]) (p_fields p)).
Proof.
  intros H. unfold add_char. rewrite (proj2 (Z.leb_gt _ _) H). reflexivity.
Qed.

Lemma feed_plain (st : PState) (acc : list ascii) (fs : list string) (c : ascii) (l : list ascii) :
  st = START_FIELD \/ st = IN_FIELD -> plain_char c = true ->
  (Z.of_nat (length acc) < field_limit)%Z ->
  feed_chars (mkParser st acc fs) (c :: l) = feed_chars (mkParser IN_FIELD (acc ++ [c]) fs) l.
Proof.
  intros Hst Hc Hlen. destruct (plain_char_spec c Hc) as [H1 [H2 H3]].
  destruct Hst as [-> | ->]; cbn [feed_chars process_char p_state];
    rewrite ?H3, ?H2, ?H1, (add_char_ok (mkParser _ acc fs) IN_FIELD c Hlen); reflexivity.
Qed.

Lemma feed_field (l rest : list ascii) (st : PState) (acc : list ascii) (fs : list string) :
  st = START_FIELD \/ st = IN_FIELD -> forallb plain_char l = true ->
  (Z.of_nat (length acc + length l) <= field_limit)%Z ->
  exists st', (st' = START_FIELD \/ st' = IN_FIELD)
    /\ feed_chars (mkParser st acc fs) (l ++ rest) = feed_chars (mkParser st' (acc ++ l) fs) rest.
Proof.
  revert st acc; induction l as [|c l IH]; intros st acc Hst Hl Hlen.
  - exists st. rewrite app_nil_r. split; [exact Hst|reflexivity].
  - cbn [forallb] in Hl. apply andb_true_iff in Hl as [Hc Hl].
    cbn [app]. rewrite (feed_plain st acc fs c (l ++ rest) Hst Hc) by (cbn [length] in Hlen; lia).
    destruct (IH IN_FIELD (acc ++ [c]) (or_intror eq_refl) Hl) as [st' [Hst' Heq]].
    { rewrite length_app. cbn [length] in Hlen |- *. lia. }
    exists st'. split; [exact Hst'|]. rewrite Heq, <- app_assoc. reflexivity.
Qed.

Lemma feed_row (row : list string) (st : PState) (fs : list string) :
  row <> [] -> forallb plain_field row = true -> st = START_FIELD \/ st = IN_FIELD ->
  feed_chars (mkParser st [] fs) (join_fields row ++ ["010"%char])
  = Ok (mkParser START_RECORD [] (fs ++ row)).
Proof.
  revert st fs; induction row as [|f rest IH]; intros st fs Hne Hp Hst; [contradiction|].
  cbn [forallb] in Hp. apply andb_true_iff in Hp as [Hf Hp].
  apply plain_field_spec in Hf as [Hf Hlen].
  destruct rest as [|g rest].
  - cbn [join_fields].
    destruct (feed_field (String.list_ascii_of_string f) ["010"%char] st [] fs Hst Hf Hlen)
      as [st' [Hst' ->]].
    destruct Hst' as [-> | ->]; cbn; unfold set_state, save_field; cbn;
      rewrite String.string_of_list_ascii_of_string; reflexivity.
  - change (join_fields (f :: g :: rest))
      with (String.list_ascii_of_string f ++ ","%char :: join_fields (g :: rest)).
    rewrite <- app_assoc. cbn [app].
    destruct (feed_field (String.list_ascii_of_string f)
                (","%char :: join_fields (g :: rest) ++ ["010"%char]) st [] fs Hst Hf Hlen)
      as [st' [Hst' ->]].
    assert (Hc : feed_chars (mkParser st' ([] ++ String.list_ascii_of_string f) fs)
                   (","%char :: join_fields (g :: rest) ++ ["010"%char])
                 = feed_chars (mkParser START_FIELD [] (fs ++ [f]))
                   (join_fields (g :: rest) ++ ["010"%char])).
    { destruct Hst' as [-> | ->]; cbn [feed_chars process_char p_state app];
        unfold save_field; cbn -[feed_chars];
        rewrite String.string_of_list_ascii_of_string; reflexivity. }
    rewrite Hc, (IH START_FIELD (fs ++ [f])); [|discriminate|exact Hp|left; reflexivity].
    rewrite <- app_assoc. reflexivity.
Qed.

Lemma join_fields_chars (row : list string) :
  forallb plain_field row = true ->
  Forall (fun c => plain_char c = true \/ c = ","%char) (join_fields row).
Proof.
  assert (Hf : forall f, plain_field f = true ->
            Forall (fun c => plain_char c = true \/ c = ","%char) (String.list_ascii_of_string f)).
  { intros f Hf. apply plain_field_spec in Hf as [Hf _]. apply Forall_forall. intros c Hc.
    left. rewrite forallb_forall in Hf. apply Hf. apply list_elem_of_In. exact Hc. }
  induction row as [|f rest IH]; intros Hp; [constructor|].
  cbn [forallb] in Hp. apply andb_true_iff in Hp as [Hp1 Hp].
  destruct rest as [|g rest]; [exact (Hf f Hp1)|].
  change (join_fields (f :: g :: rest))
    with (String.list_ascii_of_string f ++ ","%char :: join_fields (g :: rest)).
  apply Forall_app; split; [exact (Hf f Hp1)|].
  constructor; [right; reflexivity|exact (IH Hp)].
Qed.

Lemma text_char_not_nl (c : ascii) :
  plain_char c = true \/ c = ","%char -> is_crlf c = false.
Proof.
  intros [Hc| ->]; [|reflexivity].
  destruct (plain_char_spec c Hc) as [_ [_ H3]]. exact H3.
Qed.

Lemma feed_fresh_row (row : list string) :
  writable_row row = true ->
  feed_chars fresh (row_line row) = Ok (mkParser START_RECORD [] row).
Proof.
  unfold writable_row, row_line. intros Hw. apply andb_true_iff in Hw as [Hp Hne].
  apply bool_decide_eq_true in Hne.
  assert (Hrow : row <> []) by (intros ->; apply Hne; reflexivity).
  pose proof (join_fields_chars row Hp) as Hch.
  destruct (join_fields row) as [|c l] eqn:Hj; [contradiction|].
  apply Forall_cons in Hch as [Hc _].
  pose proof (text_char_not_nl c Hc) as Hcr.
  assert (Hstep : feed_chars fresh ((c :: l) ++ ["010"%char])
                  = feed_chars (mkParser START_FIELD [] []) ((c :: l) ++ ["010"%char])).
  { cbn [app feed_chars process_char p_state fresh]. rewrite Hcr. reflexivity. }
  rewrite Hstep, <- Hj. exact (feed_row row START_FIELD [] Hrow Hp (or_introl eq_refl)).
Qed.

Lemma rows_of_lines_rows (rows : list (list string)) :
  forallb writable_row rows = true ->
  rows_of_lines fresh (map row_line rows) = Ok rows.
Proof.
  induction rows as [|row rows IH]; intros Hw; [reflexivity|].
  cbn [forallb] in Hw. apply andb_true_iff in Hw as [Hr Hw].
  cbn [map rows_of_lines]. rewrite (feed_fresh_row row Hr). cbn [p_state p_fields].
  rewrite (IH Hw). reflexivity.
Qed.

Lemma universal_newlines_no_cr (l : list ascii) :
  Forall (fun c => Ascii.eqb c "013"%char = false) l -> universal_newlines l = l.
Proof.
  induction 1 as [|c l Hc _ IH]; [reflexivity|]. cbn. rewrite Hc, IH. reflexivity.
Qed.

Lemma split_lines_line (cur l rest : list ascii) :
  Forall (fun c => Ascii.eqb c "010"%char = false) l ->
  split_lines_acc cur (l ++ "010"%char :: rest)
  = (cur ++ l ++ ["010"%char]) :: split_lines_acc [] rest.
Proof.
  intros Hl. revert cur; induction Hl as [|c l Hc _ IH]; intros cur; [reflexivity|].
  cbn [app split_lines_acc]. rewrite Hc, IH, <- app_assoc. reflexivity.
Qed.

Lemma row_line_chars (row : list string) :
  forallb plain_field row = true ->
  Forall (fun c => Ascii.eqb c "010"%char = false /\ Ascii.eqb c "013"%char = false)
    (join_fields row).
Proof.
  intros Hp. eapply Forall_impl; [exact (join_fields_chars row Hp)|].
  intros c Hc. pose proof (text_char_not_nl c Hc) as Hcr.
  unfold is_crlf in Hcr. apply orb_false_iff in Hcr. exact Hcr.
Qed.

Lemma file_lines_rows_text (rows : list (list string)) :
  forallb writable_row rows = true ->
  file_lines (rows_text rows) = map row_line rows.
Proof.
  intros Hw. unfold file_lines, rows_text.
  rewrite String.list_ascii_of_string_of_list_ascii.
  induction rows as [|row rows IH]; [reflexivity|].
  cbn [forallb] in Hw. apply andb_true_iff in Hw as [Hr Hw].
  pose proof (row_line_chars row (proj1 (proj1 (andb_true_iff _ _) Hr))) as Hch.
  assert (Hnl : Forall (fun c => Ascii.eqb c "010"%char = false) (join_fields row))
    by (eapply Forall_impl; [exact Hch|]; intros c [H _]; exact H).
  assert (Hcr : Forall (fun c => Ascii.eqb c "013"%char = false) (concat (map row_line rows))).
  { clear IH. induction rows as [|r rs IHr]; [constructor|].
    cbn [forallb] in Hw. apply andb_true_iff in Hw as [Hr' Hw].
    cbn [map concat]. unfold row_line at 1. rewrite <- app_assoc.
    apply Forall_app; split.
    - eapply Forall_impl; [exact (row_line_chars r (proj1 (proj1 (andb_true_iff _ _) Hr')))|].
      intros c [_ H]; exact H.
    - constructor; [reflexivity|exact (IHr Hw)]. }
  rewrite universal_newlines_no_cr in IH |- *.
  - cbn [map concat]. unfold row_line at 1. rewrite <- app_assoc. cbn [app].
    rewrite (split_lines_line [] _ _ Hnl), (IH Hw). reflexivity.
  - exact Hcr.
  - cbn [map concat]. unfold row_line at 1. rewrite <- app_assoc.
    apply Forall_app; split.
    + eapply Forall_impl; [exact Hch|]. intros c [_ H]; exact H.
    + constructor; [reflexivity|exact Hcr].
Qed.

(** [X8] A list file whose lines are the comma-joined fields of rows
    (no field holding a comma, a double quote, CR or LF, no field longer
    than [csv.field_size_limit()], and no line empty) is read back by [csv.reader] as exactly those rows, and
    [load_files] returns their first column. *)
Theorem csv_rows_roundtrip (rows : list (list string)) :
  forallb writable_row rows = true ->
  reader (rows_text rows) = Ok rows
  /\ load_files (rows_text rows) = Ok (map (hd String.EmptyString) rows).
Proof.
  intros Hw.
  assert (Hr : reader (rows_text rows) = Ok rows).
  { unfold reader. rewrite (file_lines_rows_text rows Hw). exact (rows_of_lines_rows rows Hw). }
  split; [exact Hr|].
  unfold load_files. rewrite Hr. apply MainFacts.load_files_rows_nonempty.
  apply Forall_forall. intros row Hin ->.
  rewrite forallb_forall in Hw. apply list_elem_of_In in Hin. specialize (Hw [] Hin).
  discriminate Hw.
Qed.

(** The text with CR LF line endings. *)
Definition to_crlf (s : string) : string :=
  String.string_of_list_ascii
    (flat_map (fun c => if Ascii.eqb c "010"%char then ["013"%char; "010"%char] else [c])
       (String.list_ascii_of_string s)).

(** The text with lone CR line endings. *)
Definition to_cr (s : string) : string :=
  String.string_of_list_ascii
    (map (fun c => if Ascii.eqb c "010"%char then "013"%char else c)
       (String.list_ascii_of_string s)).

Definition no_cr (s : string) : bool :=
  forallb (fun c => negb (Ascii.eqb c "013"%char)) (String.list_ascii_of_string s).

Lemma universal_newlines_crlf (l : list ascii) :
  forallb (fun c => negb (Ascii.eqb c "013"%char)) l = true ->
  universal_newlines
    (flat_map (fun c => if Ascii.eqb c "010"%char then ["013"%char; "010"%char] else [c]) l) = l.
Proof.
  induction l as [|c l IH]; intros H; [reflexivity|].
  cbn [forallb] in H. apply andb_true_iff in H as [Hc H]. apply negb_true_iff in Hc.
  cbn [flat_map]. destruct (Ascii.eqb_spec c "010"%char) as [->|Hn].
  - cbn. rewrite (IH H). reflexivity.
  - cbn [app universal_newlines]. rewrite Hc, (IH H). reflexivity.
Qed.

Lemma universal_newlines_cr (l : list ascii) :
  forallb (fun c => negb (Ascii.eqb c "013"%char)) l = true ->
  universal_newlines (map (fun c => if Ascii.eqb c "010"%char then "013"%char else c) l) = l.
Proof.
  induction l as [|c l IH]; intros H; [reflexivity|].
  cbn [forallb] in H. apply andb_true_iff in H as [Hc H]. apply negb_true_iff in Hc.
  cbn [map]. destruct (Ascii.eqb_spec c "010"%char) as [->|Hn].
  - destruct l as [|c' l']; [reflexivity|].
    assert (Hf : Ascii.eqb (if Ascii.eqb c' "010"%char then "013"%char else c') "010"%char = false).
    { destruct (Ascii.eqb_spec c' "010"%char) as [_|Hn']; [reflexivity|].
      apply Ascii.eqb_neq. exact Hn'. }
    specialize (IH H). cbn [map] in IH |- *. cbn [universal_newlines].
    rewrite Ascii.eqb_refl, Hf. f_equal. exact IH.
  - cbn [universal_newlines]. rewrite Hc, (IH H). reflexivity.
Qed.

(** [X9] Reading a list file in text mode, CR LF and lone CR line endings
    give the same rows, and the same [load_files] result, as LF. *)
Theorem csv_line_endings (s : string) :
  no_cr s = true ->
  reader (to_crlf s) = reader s /\ reader (to_cr s) = reader s
  /\ load_files (to_crlf s) = load_files s /\ load_files (to_cr s) = load_files s.
Proof.
  intros H.
  assert (Hid : universal_newlines (String.list_ascii_of_string s) = String.list_ascii_of_string s).
  { apply universal_newlines_no_cr. unfold no_cr in H. rewrite forallb_forall in H.
    apply Forall_forall. intros c Hc. apply list_elem_of_In in Hc.
    apply negb_true_iff, H, Hc. }
  assert (H1 : reader (to_crlf s) = reader s).
  { unfold reader, file_lines, to_crlf.
    rewrite String.list_ascii_of_string_of_list_ascii, (universal_newlines_crlf _ H), Hid.
    reflexivity. }
  assert (H2 : reader (to_cr s) = reader s).
  { unfold reader, file_lines, to_cr.
    rewrite String.list_ascii_of_string_of_list_ascii, (universal_newlines_cr _ H), Hid.
    reflexivity. }
  unfold load_files. rewrite H1, H2. tauto.
Qed.


















End CsvFacts.

Module DownscalingFacts.
Import Modcrop ModcropFacts Downscaling StrFacts.

Lemma basename_no_slash (p : string) :
  "/"%char ∉ String.list_ascii_of_string (PyStr.basename p).
Proof.
  unfold PyStr.basename. rewrite String.list_ascii_of_string_of_list_ascii.
  set (l := String.list_ascii_of_string p).
  destruct (rfind_spec "/"%char l) as [[-> Hn]|[j [-> [_ Hk]]]].
  - cbn. exact Hn.
  - replace (Z.to_nat (Z.of_nat j + 1)) with (S j) by lia.
    apply not_elem_of_drop_after. intros k Hjk. apply Hk. lia.
Qed.

Lemma splitext_root_prefix (p : string) :
  exists r, (fst (PyStr.splitext p) ++ r)%string = p.
Proof.
  unfold PyStr.splitext. cbv zeta.
  destruct (_ <? _); [destruct (existsb _ _)|];
    [|exists String.EmptyString; apply string_app_empty_r ..].
  exists (String.string_of_list_ascii
            (drop (Z.to_nat (PyStr.rfind "."%char (String.list_ascii_of_string p)))
               (String.list_ascii_of_string p))).
  cbn [fst]. rewrite <- string_of_list_ascii_app, take_drop.
  apply String.string_of_list_ascii_of_string.
Qed.

Lemma starts_with_slash_stem (p b : string) :
  "/"%char ∉ String.list_ascii_of_string p -> PyStr.starts_with_slash b = false ->
  PyStr.starts_with_slash (fst (PyStr.splitext p) ++ b) = false.
Proof.
  intros Hp Hb. destruct (splitext_root_prefix p) as [r Hr].
  destruct (fst (PyStr.splitext p)) as [|c s] eqn:Hs; [exact Hb|].
  cbn. subst p. rewrite list_ascii_of_string_app in Hp. cbn in Hp. rewrite not_elem_of_cons in Hp. destruct Hp as [Hc _].
  apply Ascii.eqb_neq. congruence.
Qed.

Lemma path_join_inj (a b1 b2 : string) :
  PyStr.starts_with_slash b1 = false -> PyStr.starts_with_slash b2 = false ->
  PyStr.path_join a b1 = PyStr.path_join a b2 -> b1 = b2.
Proof.
  unfold PyStr.path_join. intros -> ->.
  destruct (String.eqb a String.EmptyString || PyStr.ends_with_slash a).
  - apply string_app_inv_l.
  - intros H. apply string_app_inv_l in H. apply (string_app_inv_l "/") in H. exact H.
Qed.

Lemma modcrop_h_mod4 {P} (fill : P) (im : Image P) :
  im_h (modcrop fill im) mod 4 = 0 /\ im_w (modcrop fill im) mod 4 = 0.
Proof.
  destruct (modcrop_cases fill im) as [[Hw [Hh ->]]|[_ ->]]; [split; assumption|].
  assert (M : forall n, (n - n mod 4) mod 4 = 0).
  { intros n. rewrite Zminus_mod, Z.mod_mod, Z.sub_diag by lia. reflexivity. }
  cbn. rewrite !Z.add_0_l, !Z.add_opp_r, !M. split; reflexivity.
Qed.

Lemma div_scale_exact (n scale : Z) :
  n mod 4 = 0 -> scale = 2 \/ scale = 4 -> n / scale * scale = n.
Proof.
  intros Hn Hs. pose proof (Z.div_mod n 4 ltac:(lia)) as D. rewrite Hn, Z.add_0_r in D.
  set (q := n / 4) in D. rewrite D.
  destruct Hs as [-> | ->].
  - replace (4 * q) with (2 * q * 2) by ring. rewrite Z.div_mul by lia. reflexivity.
  - rewrite (Z.mul_comm 4 q), Z.div_mul by lia. ring.
Qed.

(** The file-name suffix [f"_{filter_type}_blur{blur}.png"]. *)
Definition out_suffix (fb : string * string) : string :=
  ("_" ++ fb.1 ++ "_blur" ++ fb.2 ++ ".png")%string.

Section WithPixels.
Context {P : Type} (fill : P).

Lemma downscaling_test_paths (im : Image P) (filename output_dir : string) (scale : Z) :
  map sv_path (downscaling_test fill im filename output_dir scale)
  = map (fun b => PyStr.path_join output_dir
                    (fst (PyStr.splitext (PyStr.basename filename)) ++ b)%string)
        (map out_suffix (list_prod filter_types blurs)).
Proof. reflexivity. Qed.

(** [X11] With [--scale] 2 or 4, [downscaling_test] saves 15 images,
    one per filter type and blur in loop order, to 15 distinct paths; each
    is the modcropped image resized to exactly its height and width divided
    by [scale]. *)
Theorem downscaling_test_outputs (im : Image P) (filename output_dir : string) (scale : Z) :
  scale = 2 \/ scale = 4 ->
  let out := downscaling_test fill im filename output_dir scale in
  map (fun s => (sv_filter s, sv_blur s)) out = list_prod filter_types blurs
  /\ NoDup (map sv_path out)
  /\ Forall (fun s => sv_src s = modcrop fill im
                      /\ fst (sv_size s) * scale = im_h (modcrop fill im)
                      /\ snd (sv_size s) * scale = im_w (modcrop fill im)) out.
Proof.
  intros Hs out. split; [reflexivity|split].
  - unfold out. rewrite downscaling_test_paths.
    apply NoDup_fmap_2_strong.
    + intros b1 b2 Hb1 Hb2 Heq.
      assert (Hsfx : forall b, b ∈ map out_suffix (list_prod filter_types blurs) ->
                       PyStr.starts_with_slash b = false).
      { intros b Hb. apply list_elem_of_fmap in Hb as [fb [-> _]]. reflexivity. }
      apply path_join_inj in Heq;
        [|apply starts_with_slash_stem; [apply basename_no_slash|apply Hsfx; assumption]..].
      exact (string_app_inv_l _ _ _ Heq).
    + vm_compute. repeat constructor; set_solver.
  - destruct (modcrop_h_mod4 fill im) as [Hh Hw].
    unfold out, downscaling_test. cbv zeta.
    apply Forall_forall. intros s Hin.
    apply list_elem_of_In, in_flat_map in Hin as [ft [_ Hin]].
    apply in_map_iff in Hin as [bl [<- _]].
    cbn. split; [reflexivity|split; apply div_scale_exact; assumption].
Qed.

End WithPixels.
End DownscalingFacts.


(* ------------------------------------------------------------------ *)
(** ** The properties on the concrete instance *)

Module Examples.
Import Cli Demo.

(** [C8] on a run where the loader has filled the queue: 128 decoded
    images wait in it, and two files are left to read. *)
Lemma convert_files_queue_bounded_witness :
  let s := demo_state [] fill_queue many_files in
  drun [] demo_args fill_queue (convert_files_init many_files) = Some s
  /\ length (s_queue s) = 128%nat /\ length (s_pending s) = 2%nat
  /\ (s_cap s = 128%nat
      /\ (length (s_queue s) <= s_cap s)%nat
      /\ (forall f rest x, s_pending s = f :: rest -> demo_load f = Ok x ->
            length (s_queue s) = s_cap s -> dstep [] demo_args Producer s = None)).
Proof.
  intros s.
  assert (H : drun [] demo_args fill_queue (convert_files_init many_files) = Some s)
    by (vm_compute; reflexivity).
  assert (Hq : length (s_queue s) = 128%nat) by (vm_compute; reflexivity).
  assert (Hp : length (s_pending s) = 2%nat) by (vm_compute; reflexivity).
  clearbody s.
  split; [exact H|split; [exact Hq|split; [exact Hp|]]].
  exact (PipelineFacts.convert_files_queue_bounded demo_load demo_to_tensor demo_convert
           demo_to_image (demo_save []) demo_set_image_ext demo_basename demo_path_join
           demo_makedirs demo_args many_files fill_queue s H).
Defined.

(** [C1] on a run where writing the first two outputs fails: both futures
    have completed, and the outcome is the error of the first. *)
Lemma convert_files_waits_all_futures_witness :
  let s := demo_state demo_bad demo_sched_fail demo_files in
  let r := Err (OSError "No space left on device: out/1.png") in
  drun demo_bad demo_args demo_sched_fail (convert_files_init demo_files) = Some s
  /\ s_phase s = PDone r
  /\ (forallb task_done (s_tasks s) = true
      /\ (forall t, t ∈ s_tasks s -> t_status t = Some (dsave_of demo_bad t))
      /\ (r = first_error (s_tasks s)
          \/ (exists x e, x ∈ dloaded demo_files /\ dconvert_job demo_args x = Err e
                          /\ r = Err e)
          \/ (exists e, demo_makedirs (args_output demo_args) = Err e /\ r = Err e
                        /\ s_tasks s = []))).
Proof.
  intros s r.
  assert (H : drun demo_bad demo_args demo_sched_fail (convert_files_init demo_files) = Some s)
    by (vm_compute; reflexivity).
  assert (Hd : s_phase s = PDone r) by (vm_compute; reflexivity).
  clearbody s r.
  split; [exact H|split; [exact Hd|]].
  exact (PipelineFacts.convert_files_waits_all_futures demo_load demo_to_tensor demo_convert
           demo_to_image (demo_save demo_bad) demo_set_image_ext demo_basename demo_path_join
           demo_makedirs demo_args demo_files demo_sched_fail s r H Hd).
Defined.

(** [C1] Errors are not collected: on the same run the second future failed
    too, with another error, and [convert_files] raises only the first. *)
Lemma convert_files_reports_one_error :
  let s := demo_state demo_bad demo_sched_fail demo_files in
  drun demo_bad demo_args demo_sched_fail (convert_files_init demo_files) = Some s
  /\ s_phase s = PDone (Err (OSError "No space left on device: out/1.png"))
  /\ (t_status <$> s_tasks s !! 1%nat)
     = Some (Some (Err (OSError "No space left on device: out/2.png"))).
Proof. intros s. split; [|split]; vm_compute; reflexivity. Defined.

(** With [-o out.png], an existing file, [os.makedirs] raises before the
    loop: [convert_files] raises [FileExistsError], no future is submitted
    and nothing is written, although the loader may have decoded images. *)
Lemma convert_files_makedirs_error :
  let args := mkArgs "in" "out.png" "png" None false in
  let sched := [Producer; Producer; Consumer] in
  let s := match drun [] args sched (convert_files_init demo_files) with
           | Some s => s | None => convert_files_init demo_files end in
  drun [] args sched (convert_files_init demo_files) = Some s
  /\ s_phase s = PDone (Err (OSError "[Errno 17] File exists: 'out.png'"))
  /\ s_tasks s = [] /\ s_disk s = [] /\ length (s_queue s) = 2%nat.
Proof.
  intros args sched s. split; [|split; [|split; [|split]]]; vm_compute; reflexivity.
Defined.

(** [C2] The batch of five files where ["3.png"] is corrupt: the outputs of
    files 1, 2, 4 and 5 are written, exactly one decode failure is recorded,
    for ["3.png"], and [convert_files] returns normally. *)
Lemma convert_files_per_file_independence_witness :
  let s := demo_state [] demo_sched demo_files in
  drun [] demo_args demo_sched (convert_files_init demo_files) = Some s
  /\ s_phase s = PDone (Ok tt)
  /\ demo_makedirs (args_output demo_args) = Ok tt
  /\ (forall x, x ∈ dloaded demo_files -> exists t, dconvert_job demo_args x = Ok t)
  /\ s_failed s = [("3.png", CodecError "cannot identify image file")]
  /\ map w_filename (s_disk s) = ["out/1.png"; "out/2.png"; "out/4.png"; "out/5.png"]
  /\ ((forall f x t, f ∈ demo_files -> demo_load f = Ok x -> dconvert_job demo_args x = Ok t ->
         dsave_of [] t = Ok tt -> written_of t ∈ s_disk s)
      /\ s_failed s = ddecode_failures demo_files
      /\ (forall t, t ∈ s_tasks s -> t_status t = Some (dsave_of [] t))
      /\ Ok tt = first_error (s_tasks s)
      /\ (output_fmt demo_args ∈ known_formats ->
            (forall e, demo_load (args_input demo_args) = Err e ->
               dconvert_file [] demo_args = (Err e, [ELoad (args_input demo_args)]))
            /\ (forall x, demo_load (args_input demo_args) = Ok x ->
               exists im meta, fst (dconvert_file [] demo_args)
                               = demo_save [] im (args_output demo_args) meta (output_fmt demo_args)))).
Proof.
  intros s.
  assert (H : drun [] demo_args demo_sched (convert_files_init demo_files) = Some s)
    by (vm_compute; reflexivity).
  assert (Hd : s_phase s = PDone (Ok tt)) by (vm_compute; reflexivity).
  assert (Hm : demo_makedirs (args_output demo_args) = Ok tt) by (vm_compute; reflexivity).
  assert (Hj : forall x, x ∈ dloaded demo_files -> exists t, dconvert_job demo_args x = Ok t).
  { apply Forall_forall. vm_compute.
    repeat (apply Forall_cons; split; [eexists; reflexivity|]). apply Forall_nil; exact I. }
  assert (Hf : s_failed s = [("3.png", CodecError "cannot identify image file")])
    by (vm_compute; reflexivity).
  assert (Hw : map w_filename (s_disk s) = ["out/1.png"; "out/2.png"; "out/4.png"; "out/5.png"])
    by (vm_compute; reflexivity).
  clearbody s.
  split; [exact H|split; [exact Hd|split; [exact Hm|split; [exact Hj|split; [exact Hf|split; [exact Hw|]]]]]].
  exact (PipelineFacts.convert_files_per_file_independence demo_load demo_to_tensor demo_convert
           demo_to_image (demo_save []) demo_set_image_ext demo_basename demo_path_join
           demo_makedirs demo_args demo_files demo_sched s (Ok tt) H Hd Hm Hj).
Defined.

(** [C3] The metadata is edited: with [--depth 16], [convert_file] saves
    with ["depth"] set to [16], a key the loaded metadata does not have. *)
Lemma convert_file_edits_metadata :
  demo_load "in.png" = Ok ("in.png", <["filename" := PStr "in.png"]> ∅)
  /\ snd (dconvert_file [] depth_args)
     = [ELoad "in.png"; EConvert;
        ESave "out.png" (<["depth" := PInt 16]> (<["filename" := PStr "in.png"]> ∅)) "png"]
  /\ (<["filename" := PStr "in.png"]> (∅ : pydict)) !! "depth" = None
  /\ (<["depth" := PInt 16]> (<["filename" := PStr "in.png"]> (∅ : pydict))) !! "depth"
     = Some (PInt 16).
Proof. split; [|split; [|split]]; vm_compute; reflexivity. Defined.





End Examples.

(* ------------------------------------------------------------------ *)
(** ** Further properties on concrete inputs *)

Module ExtraExamples.
Import Modcrop Downscaling.

(** [X8] on three rows, one with a blank inside its first field. *)
Definition sample_rows : list (list string) := [["a.png"; "1"]; ["b.png"]; ["c d.png"; "x"; "y"]].

Lemma csv_rows_roundtrip_witness :
  forallb CsvFacts.writable_row sample_rows = true
  /\ (Csv.reader (CsvFacts.rows_text sample_rows) = Ok sample_rows
      /\ load_files (CsvFacts.rows_text sample_rows) = Ok (map (hd String.EmptyString) sample_rows)).
Proof.
  assert (H : forallb CsvFacts.writable_row sample_rows = true) by (vm_compute; reflexivity).
  split; [exact H|]. exact (CsvFacts.csv_rows_roundtrip sample_rows H).
Defined.

(** [X9] on a two-line list file. *)
Definition sample_text : string := Demo.text_of_lines ["a.png,1"; "b.png"].

Lemma csv_line_endings_witness :
  CsvFacts.no_cr sample_text = true
  /\ (Csv.reader (CsvFacts.to_crlf sample_text) = Csv.reader sample_text
      /\ Csv.reader (CsvFacts.to_cr sample_text) = Csv.reader sample_text
      /\ load_files (CsvFacts.to_crlf sample_text) = load_files sample_text
      /\ load_files (CsvFacts.to_cr sample_text) = load_files sample_text).
Proof.
  assert (H : CsvFacts.no_cr sample_text = true) by (vm_compute; reflexivity).
  split; [exact H|]. exact (CsvFacts.csv_line_endings sample_text H).
Defined.

(** [X11] on a 10 x 13 image, which [modcrop] crops to 8 x 12. *)
Definition sample_image : Image nat := mkImage 10 13 (fun x y => Z.to_nat (x + y)).

Lemma downscaling_test_outputs_witness :
  (2 = 2 \/ 2 = 4)
  /\ (let out := downscaling_test 0%nat sample_image "dir/img.jpg" "out" 2 in
      map (fun s => (sv_filter s, sv_blur s)) out = list_prod filter_types blurs
      /\ NoDup (map sv_path out)
      /\ Forall (fun s => sv_src s = modcrop 0%nat sample_image
                          /\ fst (sv_size s) * 2 = im_h (modcrop 0%nat sample_image)
                          /\ snd (sv_size s) * 2 = im_w (modcrop 0%nat sample_image)) out).
Proof.
  assert (H : 2 = 2 \/ 2 = 4) by (left; reflexivity).
  split; [exact H|].
  exact (DownscalingFacts.downscaling_test_outputs 0%nat sample_image "dir/img.jpg" "out" 2 H).
Defined.

End ExtraExamples.
